(** * legenda-desktop: the main-process IPC handlers

    A shallow embedding of [registerHandlers] (the Electron main-process
    module that owns the generated-files catalog, the runner registry and
    the job pipeline) together with the properties its specification
    states about it.

    Layout: data model, the [node:path] and [node:fs] fragments the
    handlers call, a state-and-exception monad for the handler bodies, the
    handlers themselves, and then the theorems. *)

From Stdlib Require Import Ascii String.
From stdpp Require Import base option list strings gmap pretty.
From Stdlib Require Import ZArith Lia Zify ZifyNat.

(* ================================================================== *)
(** ** Data model (shared/ipc/dtos) *)
(* ================================================================== *)

Inductive SubtitleFormat := srt | ass.

Inductive GranularityPreset := LOW | MEDIUM | HIGH | ULTRA.

(** Over IPC the payload is untyped: [language] and [modelId] may be
    missing at run time (the handler guards them with [||]), so they are
    optional here; [granularity] is optional in the type itself. *)
Record StartJobRequest := {
  audioPath : string;
  language : option string;
  modelId : option string;
  format : SubtitleFormat;
  outputPath : string;
  granularity : option GranularityPreset
}.

Record StartJobResponse := { sj_jobId : string }.

Record SubtitleCueDTO := {
  cue_index : nat;
  startMs : nat;
  endMs : nat;
  cue_text : string
}.

Record GeneratedFileDTO := {
  gf_id : string;
  gf_path : string;
  gf_fileName : string;
  gf_format : SubtitleFormat;
  gf_language : option string;
  gf_modelId : option string;
  gf_createdAtISO : string;
  gf_exists : bool
}.

Record RenameGeneratedFileRequest := { rn_id : string; newBaseName : string }.

Record DeleteGeneratedFileRequest := { del_id : string }.

(** The codes passed to [makeErr] in this module. *)
Inductive ErrCode :=
  | AUDIO_NOT_SELECTED
  | OUTPUT_PATH_REQUIRED
  | WHISPER_FAILED
  | FILE_NOT_FOUND
  | VALIDATION_ERROR
  | FILE_RENAME_FAILED
  | FILE_DELETE_FAILED.

Inductive ActionHint := PICK_AUDIO | CHOOSE_OUTPUT.

Record AppErrorDTO := {
  code : ErrCode;
  message : string;
  details : option string;
  actionHint : option ActionHint
}.

(** A thrown JavaScript [Error]: its [message] and the [appError]
    property that [makeErr] attaches (absent on errors raised by Node or
    by the engine). *)
Record JsError := {
  js_message : string;
  appError : option AppErrorDTO
}.

(** function makeErr(code, message, details?, actionHint?) *)
Definition makeErr (c : ErrCode) (msg : string) (det : option string)
    (hint : option ActionHint) : JsError :=
  let err := {| code := c; message := msg; details := det; actionHint := hint |} in
  {| js_message := msg; appError := Some err |}.

Global Instance SubtitleFormat_eq_dec : EqDecision SubtitleFormat.
Proof. solve_decision. Defined.
Global Instance GranularityPreset_eq_dec : EqDecision GranularityPreset.
Proof. solve_decision. Defined.
Global Instance ErrCode_eq_dec : EqDecision ErrCode.
Proof. solve_decision. Defined.
Global Instance ActionHint_eq_dec : EqDecision ActionHint.
Proof. solve_decision. Defined.

(* ================================================================== *)
(** ** Events sent to the renderer (./events) *)
(* ================================================================== *)

Inductive JobStep := PREPARING | TRANSCRIBING | CONVERTING | SAVING | DONE.

Inductive ChangeReason := CREATED | RENAMED | DELETED.

Record GeneratedRef := {
  ref_id : string;
  ref_path : string;
  ref_fileName : string
}.

Inductive IpcEvent :=
  | JobProgress (jobId : string) (step : JobStep) (msg : string)
  | JobDone (jobId : string) (generated : GeneratedRef) (preview : list SubtitleCueDTO)
  | JobError (jobId : string) (error : JsError)
  | GeneratedChanged (reason : ChangeReason).

Global Instance JobStep_eq_dec : EqDecision JobStep.
Proof. solve_decision. Defined.

(* ================================================================== *)
(** ** node:path

    The handlers use four functions of [node:path].  They are kept behind
    an interface; [posix_path] below is the POSIX flavour, used wherever a
    path has to be computed. *)
(* ================================================================== *)

Class PathApi := {
  dirname : string → string;
  extname : string → string;
  (** [basename p ext]; the one-argument form is [basename p ""]. *)
  basename : string → string → string;
  join : string → string → string
}.

Module Posix.

Definition slash : ascii := "/"%char.
Definition dot : ascii := "."%char.

Definition is_slash (c : ascii) : bool := bool_decide (c = slash).

Fixpoint drop_while {A} (f : A → bool) (l : list A) : list A :=
  match l with
  | [] => []
  | x :: l' => if f x then drop_while f l' else l
  end.

Fixpoint take_while {A} (f : A → bool) (l : list A) : list A :=
  match l with
  | [] => []
  | x :: l' => if f x then x :: take_while f l' else []
  end.

Definition chars (s : string) : list ascii := list_ascii_of_string s.
Definition str (l : list ascii) : string := string_of_list_ascii l.

(** The last segment of [p], trailing slashes ignored. *)
Definition last_segment (p : list ascii) : list ascii :=
  rev (take_while (λ c, negb (is_slash c)) (drop_while is_slash (rev p))).

(** path.posix.dirname: the scan runs from the end down to index 1. *)
Definition dirname (p : string) : string :=
  match chars p with
  | [] => "."
  | c0 :: rest =>
      let r := drop_while (λ c, negb (is_slash c))
                 (drop_while is_slash (rev rest)) in
      match r with
      | [] => if is_slash c0 then "/" else "."
      | _ :: r' =>
          if is_slash c0 && bool_decide (length r = 1)
          then "//" else str (c0 :: rev r')
      end
  end.

(** Index of the last [.] of a segment, if any. *)
Fixpoint last_dot (l : list ascii) (i : nat) (acc : option nat) : option nat :=
  match l with
  | [] => acc
  | c :: l' => last_dot l' (S i) (if bool_decide (c = dot) then Some i else acc)
  end.

(** path.posix.extname: from the last dot of the last segment, unless
    that dot opens the segment or the segment is [..]. *)
Definition extname (p : string) : string :=
  let seg := last_segment (chars p) in
  match last_dot seg 0 None with
  | None => ""
  | Some 0 => ""
  | Some k => if bool_decide (seg = [dot; dot]) then "" else str (drop k seg)
  end.

Fixpoint is_prefix (a b : list ascii) : bool :=
  match a, b with
  | [], _ => true
  | x :: a', y :: b' => bool_decide (x = y) && is_prefix a' b'
  | _ :: _, [] => false
  end.

Definition is_suffix (a b : list ascii) : bool := is_prefix (rev a) (rev b).

(** path.posix.basename: the last segment, without [ext] when the
    segment ends with it and is longer than it. *)
Definition basename (p ext : string) : string :=
  let seg := last_segment (chars p) in
  let e := chars ext in
  if bool_decide (e = []) then str seg
  else if is_suffix e seg && negb (bool_decide (seg = e))
  then str (take (length seg - length e) seg)
  else str seg.

(** Split at slashes. *)
Fixpoint segments (cur : list ascii) (l : list ascii) : list (list ascii) :=
  match l with
  | [] => [rev cur]
  | c :: l' => if is_slash c then rev cur :: segments [] l' else segments (c :: cur) l'
  end.

(** normalizeString: the stack of kept segments, most recent first. *)
Fixpoint resolve_dots (allowAbove : bool) (stack : list (list ascii))
    (segs : list (list ascii)) : list (list ascii) :=
  match segs with
  | [] => rev stack
  | s :: segs' =>
      if bool_decide (s = []) || bool_decide (s = [dot]) then
        resolve_dots allowAbove stack segs'
      else if bool_decide (s = [dot; dot]) then
        match stack with
        | top :: stack' =>
            if bool_decide (top = [dot; dot])
            then resolve_dots allowAbove (s :: stack) segs'
            else resolve_dots allowAbove stack' segs'
        | [] =>
            if allowAbove then resolve_dots allowAbove [s] segs'
            else resolve_dots allowAbove [] segs'
        end
      else resolve_dots allowAbove (s :: stack) segs'
  end.

Fixpoint intercalate (l : list (list ascii)) : list ascii :=
  match l with
  | [] => []
  | [s] => s
  | s :: l' => s ++ slash :: intercalate l'
  end.

Definition normalize (p : string) : string :=
  match chars p with
  | [] => "."
  | c0 :: _ =>
      let isAbsolute := is_slash c0 in
      let trailing := match rev (chars p) with c :: _ => is_slash c | [] => false end in
      let body := intercalate (resolve_dots (negb isAbsolute) [] (segments [] (chars p))) in
      match body with
      | [] => if isAbsolute then "/" else if trailing then "./" else "."
      | _ =>
          let body' := if trailing then body ++ [slash] else body in
          str (if isAbsolute then slash :: body' else body')
      end
  end.

(** path.posix.join, two arguments: empty arguments are skipped. *)
Definition join (a b : string) : string :=
  if bool_decide (a = "") then
    if bool_decide (b = "") then "." else normalize b
  else if bool_decide (b = "") then normalize a
  else normalize (a +:+ "/" +:+ b).

End Posix.

Definition posix_path : PathApi :=
  {| dirname := Posix.dirname;
     extname := Posix.extname;
     basename := Posix.basename;
     join := Posix.join |}.

(* ================================================================== *)
(** ** node:fs

    The file system is a finite map from paths to file contents.  Besides
    a missing source, the operating system may refuse an operation for
    reasons the map does not show (permissions, a missing directory, a
    full disk); [os_fault] of the environment decides that. *)
(* ================================================================== *)

Abbreviation Files := (gmap string string).

Inductive FsOp :=
  | OpCopy (src dst : string)
  | OpRename (oldPath newPath : string)
  | OpUnlink (p : string)
  | OpRead (p : string).

(** fs.existsSync never throws. *)
Definition existsSync (fs : Files) (p : string) : bool :=
  bool_decide (is_Some (fs !! p)).

Definition node_error (msg : string) : JsError :=
  {| js_message := msg; appError := None |}.

Definition ENOENT (p : string) : JsError :=
  node_error ("ENOENT: no such file or directory, '" +:+ p +:+ "'").

(* ================================================================== *)
(** ** The engine runner and the world the handlers act on *)
(* ================================================================== *)

(** The options object handed to [runner.run]. *)
Record RunParams := {
  rp_audioPath : string;
  rp_language : string;
  rp_model : string;
  rp_granularity : GranularityPreset
}.

Record RunResult := { srtPath : string }.

(** A [WhisperRunner] object is known by its identity. *)
Abbreviation Runner := nat.

Inductive RunnerCall :=
  | CallRun (r : Runner) (params : RunParams)
  | CallCancel (r : Runner).

(** What the module imports but does not define, and the sources of
    randomness and time. *)
Record Env := {
  (** ../utils/sanitizeFileName *)
  sanitizeBaseName : string → string;
  (** ../utils/srtToAss: reads the first path, writes the second. *)
  convertSrtFileToAss : string → string → Files → JsError + Files;
  (** ../utils/srtParse *)
  parseSrt : string → JsError + list SubtitleCueDTO;
  (** The settled outcome of [await runner.run(params, onLine)]: a
      rejection, or the result with the files the engine left behind. *)
  whisper_run : RunParams → Files → JsError + (RunResult * Files);
  (** The n-th value of crypto.randomUUID(). *)
  uuid_at : nat → string;
  (** new Date().toISOString() *)
  now_iso : string;
  os_fault : FsOp → option string
}.

Record World := {
  (** the catalog behind [store] *)
  catalog : list GeneratedFileDTO;
  files : gmap string string;
  (** const runners = new Map<string, WhisperRunner>() *)
  runners : gmap string nat;
  (** the calls made on runner objects, oldest first *)
  runner_calls : list RunnerCall;
  next_runner : nat;
  (** what was sent to the window, oldest first *)
  events : list IpcEvent;
  (** how many UUIDs were drawn *)
  rng : nat
}.

Definition set_catalog (c : list GeneratedFileDTO) (w : World) : World :=
  {| catalog := c; files := files w; runners := runners w;
     runner_calls := runner_calls w; next_runner := next_runner w;
     events := events w; rng := rng w |}.

Definition set_files (f : gmap string string) (w : World) : World :=
  {| catalog := catalog w; files := f; runners := runners w;
     runner_calls := runner_calls w; next_runner := next_runner w;
     events := events w; rng := rng w |}.

Definition set_runners (r : gmap string nat) (w : World) : World :=
  {| catalog := catalog w; files := files w; runners := r;
     runner_calls := runner_calls w; next_runner := next_runner w;
     events := events w; rng := rng w |}.

Definition log_call (c : RunnerCall) (w : World) : World :=
  {| catalog := catalog w; files := files w; runners := runners w;
     runner_calls := runner_calls w ++ [c]; next_runner := next_runner w;
     events := events w; rng := rng w |}.

Definition alloc_runner (w : World) : World :=
  {| catalog := catalog w; files := files w; runners := runners w;
     runner_calls := runner_calls w; next_runner := S (next_runner w);
     events := events w; rng := rng w |}.

Definition emit (e : IpcEvent) (w : World) : World :=
  {| catalog := catalog w; files := files w; runners := runners w;
     runner_calls := runner_calls w; next_runner := next_runner w;
     events := events w ++ [e]; rng := rng w |}.

Definition draw (w : World) : World :=
  {| catalog := catalog w; files := files w; runners := runners w;
     runner_calls := runner_calls w; next_runner := next_runner w;
     events := events w; rng := S (rng w) |}.

(* ================================================================== *)
(** ** Handler bodies: state and exceptions

    A handler body runs on the world and either completes normally or
    throws; what it did before throwing stays done. *)
(* ================================================================== *)

Inductive Completion (A : Type) :=
  | Normal (a : A)
  | Thrown (e : JsError).
Arguments Normal {A} a.
Arguments Thrown {A} e.

Definition M (A : Type) : Type := World → Completion A * World.

Global Instance M_ret : MRet M := λ A a w, (Normal a, w).

Global Instance M_bind : MBind M := λ A B f m w,
  match m w with
  | (Normal a, w') => f a w'
  | (Thrown e, w') => (Thrown e, w')
  end.

Definition throw {A} (e : JsError) : M A := λ w, (Thrown e, w).

Definition gets {A} (f : World → A) : M A := λ w, (Normal (f w), w).

Definition modify (f : World → World) : M unit := λ w, (Normal tt, f w).

(** try { body } catch (e) { handler e } *)
Definition try_catch {A} (body : M A) (handler : JsError → M A) : M A := λ w,
  match body w with
  | (Normal a, w') => (Normal a, w')
  | (Thrown e, w') => handler e w'
  end.

(** try { body } finally { cleanup } *)
Definition try_finally {A} (body : M A) (cleanup : M unit) : M A := λ w,
  let '(c, w') := body w in
  match cleanup w' with
  | (Normal _, w'') => (c, w'')
  | (Thrown e, w'') => (Thrown e, w'')
  end.

(** Lifting an outcome of the environment. *)
Definition lift_sum {A} (r : JsError + A) : M A :=
  match r with inl e => throw e | inr a => mret a end.

(** if (cond) throw e; *)
Definition throw_if (cond : bool) (e : JsError) : M unit :=
  if cond then throw e else mret tt.

(** A point where the handler awaits a timer. *)
Definition sleep (ms : nat) : M unit := mret tt.

(* ================================================================== *)
(** ** The catalog store (../store/generatedFilesStore) *)
(* ================================================================== *)

Definition has_id (id : string) (x : GeneratedFileDTO) : bool :=
  bool_decide (gf_id x = id).

Fixpoint replace_first (id : string) (mutator : GeneratedFileDTO → GeneratedFileDTO)
    (items : list GeneratedFileDTO) : list GeneratedFileDTO :=
  match items with
  | [] => []
  | x :: rest =>
      if has_id id x then mutator x :: rest
      else x :: replace_first id mutator rest
  end.

(** Modelled from the spec: the class GeneratedFilesStore, whose file is
    not part of this module.  [list()] gives all records in insertion
    order and never fails. *)
Definition store_list : M (list GeneratedFileDTO) := gets catalog.

(** Modelled from the spec: GeneratedFilesStore [add(record)] appends one
    record and fails with a validation error if the identifier already
    exists. *)
Definition store_add (record : GeneratedFileDTO) : M unit :=
  items ← gets catalog;
  if existsb (has_id (gf_id record)) items
  then throw (makeErr VALIDATION_ERROR "duplicate identifier" None None)
  else modify (set_catalog (items ++ [record])).

(** Modelled from the spec: GeneratedFilesStore [update(id, mutator)]
    applies the transformation to the record matching [id] and fails with
    a not-found error if there is none. *)
Definition store_update (id : string)
    (mutator : GeneratedFileDTO → GeneratedFileDTO) : M unit :=
  items ← gets catalog;
  if existsb (has_id id) items
  then modify (set_catalog (replace_first id mutator items))
  else throw (makeErr FILE_NOT_FOUND "no such record" None None).

(** Modelled from the spec: GeneratedFilesStore [remove(id)] deletes the
    record matching [id] and is a no-op if there is none. *)
Definition store_remove (id : string) : M unit :=
  items ← gets catalog;
  modify (set_catalog (List.filter (λ x, negb (has_id id x)) items)).

(* ================================================================== *)
(** ** Emitting (./events) *)
(* ================================================================== *)

Definition emitJobProgress (jobId : string) (step : JobStep) (msg : string) : M unit :=
  modify (emit (JobProgress jobId step msg)).

Definition emitJobDone (jobId : string) (g : GeneratedRef)
    (preview : list SubtitleCueDTO) : M unit :=
  modify (emit (JobDone jobId g preview)).

Definition emitJobError (jobId : string) (error : JsError) : M unit :=
  modify (emit (JobError jobId error)).

Definition emitGeneratedChanged (reason : ChangeReason) : M unit :=
  modify (emit (GeneratedChanged reason)).

(* ================================================================== *)
(** ** The registry [runners] and the runner objects *)
(* ================================================================== *)

(** new WhisperRunner() *)
Definition new_WhisperRunner : M Runner :=
  r ← gets next_runner;
  modify alloc_runner;;
  mret r.

Definition runners_set (jobId : string) (r : Runner) : M unit :=
  modify (λ w, set_runners (<[jobId := r]> (runners w)) w).

Definition runners_get (jobId : string) : M (option Runner) :=
  gets (λ w, runners w !! jobId).

Definition runners_delete (jobId : string) : M unit :=
  modify (λ w, set_runners (delete jobId (runners w)) w).

(** r.cancel() *)
Definition runner_cancel (r : Runner) : M unit :=
  modify (log_call (CallCancel r)).

(** str.replace(/\.srt$/i, ".ass"): the final [.srt], in any case,
    becomes [.ass]; a string that does not end so is left as it is. *)
Definition is_srt_suffix (l : list ascii) : bool :=
  match l with
  | [c0; c1; c2; c3] =>
      bool_decide (c0 = "."%char)
      && (bool_decide (c1 = "s"%char) || bool_decide (c1 = "S"%char))
      && (bool_decide (c2 = "r"%char) || bool_decide (c2 = "R"%char))
      && (bool_decide (c3 = "t"%char) || bool_decide (c3 = "T"%char))
  | _ => false
  end.

Definition replace_srt_ext (s : string) : string :=
  let l := list_ascii_of_string s in
  let n := length l in
  if is_srt_suffix (drop (n - 4) l)
  then string_of_list_ascii (take (n - 4) l) +:+ ".ass"
  else s.

(** { ...x, exists: b } *)
Definition with_exists (x : GeneratedFileDTO) (b : bool) : GeneratedFileDTO :=
  {| gf_id := gf_id x; gf_path := gf_path x; gf_fileName := gf_fileName x;
     gf_format := gf_format x; gf_language := gf_language x;
     gf_modelId := gf_modelId x; gf_createdAtISO := gf_createdAtISO x;
     gf_exists := b |}.

(** req.language || "pt" *)
Definition or_default (v : option string) (d : string) : string :=
  match v with
  | Some s => if bool_decide (s = "") then d else s
  | None => d
  end.

(** req.granularity ?? "MEDIUM" *)
Definition nullish (v : option GranularityPreset) (d : GranularityPreset)
    : GranularityPreset :=
  match v with Some g => g | None => d end.

Section Handlers.

Context {P : PathApi} (E : Env).

(* ---------------------------------------------------------------- *)
(** *** File operations *)

Definition os_check (op : FsOp) : M unit :=
  match os_fault E op with
  | Some msg => throw (node_error msg)
  | None => mret tt
  end.

Definition copyFileSync (src dst : string) : M unit :=
  os_check (OpCopy src dst);;
  fs ← gets files;
  match fs !! src with
  | None => throw (ENOENT src)
  | Some content => modify (set_files (<[dst := content]> fs))
  end.

Definition renameSync (oldPath newPath : string) : M unit :=
  os_check (OpRename oldPath newPath);;
  fs ← gets files;
  match fs !! oldPath with
  | None => throw (ENOENT oldPath)
  | Some content => modify (set_files (<[newPath := content]> (delete oldPath fs)))
  end.

Definition unlinkSync (p : string) : M unit :=
  os_check (OpUnlink p);;
  fs ← gets files;
  match fs !! p with
  | None => throw (ENOENT p)
  | Some _ => modify (set_files (delete p fs))
  end.

Definition readFileSync (p : string) : M string :=
  os_check (OpRead p);;
  fs ← gets files;
  match fs !! p with
  | None => throw (ENOENT p)
  | Some content => mret content
  end.

(** crypto.randomUUID() *)
Definition randomUUID : M string :=
  n ← gets rng;
  modify draw;;
  mret (uuid_at E n).

(** await runner.run(params, onLine); the line callback does nothing. *)
Definition runner_run (r : Runner) (params : RunParams) : M RunResult :=
  modify (log_call (CallRun r params));;
  fs ← gets files;
  match whisper_run E params fs with
  | inl e => throw e
  | inr (res, fs') => modify (set_files fs');; mret res
  end.

Definition convert (src dst : string) : M unit :=
  fs ← gets files;
  fs' ← lift_sum (convertSrtFileToAss E src dst fs);
  modify (set_files fs').

(* ---------------------------------------------------------------- *)
(** *** function resolveNonCollidingPath(p) *)

(** `${base} (${i})${ext}` joined to [dir] *)
Definition candidate (dir base ext : string) (i : nat) : string :=
  join dir (base +:+ " (" +:+ pretty i +:+ ")" +:+ ext).

(** The loop, [n] iterations from [i] on. *)
Fixpoint probe (fs : Files) (dir base ext : string) (n i : nat) : option string :=
  match n with
  | 0 => None
  | S n' =>
      if existsSync fs (candidate dir base ext i)
      then probe fs dir base ext n' (S i)
      else Some (candidate dir base ext i)
  end.

Definition resolveNonCollidingPath (fs : Files) (p : string) : string :=
  if negb (existsSync fs p) then p
  else
    let dir := dirname p in
    let ext := extname p in
    let base := basename p ext in
    (* for (let i = 1; i < 1000; i++) *)
    match probe fs dir base ext 999 1 with
    | Some c => c
    | None => p
    end.

(* ---------------------------------------------------------------- *)
(** *** IPC.GENERATED_LIST *)

Definition GENERATED_LIST : M (list GeneratedFileDTO) :=
  stored ← store_list;
  fs ← gets files;
  mret (map (λ x, with_exists x (existsSync fs (gf_path x))) stored).

(* ---------------------------------------------------------------- *)
(** *** IPC.GENERATED_RENAME *)

Definition renamed (found : GeneratedFileDTO) (finalPath : string) : GeneratedFileDTO :=
  {| gf_id := gf_id found;
     gf_path := finalPath;
     gf_fileName := basename finalPath "";
     gf_format := gf_format found;
     gf_language := gf_language found;
     gf_modelId := gf_modelId found;
     gf_createdAtISO := gf_createdAtISO found;
     gf_exists := true |}.

Definition GENERATED_RENAME (req : RenameGeneratedFileRequest) : M GeneratedFileDTO :=
  items ← store_list;
  match List.find (has_id (rn_id req)) items with
  | None => throw (makeErr FILE_NOT_FOUND "Arquivo não encontrado no histórico." None None)
  | Some found =>
      fs ← gets files;
      throw_if (negb (existsSync fs (gf_path found)))
        (makeErr FILE_NOT_FOUND "Arquivo não existe mais no disco." None None);;
      let base := sanitizeBaseName E (newBaseName req) in
      throw_if (bool_decide (base = ""))
        (makeErr VALIDATION_ERROR "Nome inválido." None None);;
      let dir := dirname (gf_path found) in
      let ext := extname (gf_path found) in
      let newPath := join dir (base +:+ ext) in
      let finalPath := resolveNonCollidingPath fs newPath in
      try_catch (renameSync (gf_path found) finalPath)
        (λ e, throw (makeErr FILE_RENAME_FAILED "Não foi possível renomear o arquivo."
                       (Some (js_message e)) None));;
      let updated := renamed found finalPath in
      store_update (rn_id req) (λ _, updated);;
      emitGeneratedChanged RENAMED;;
      mret updated
  end.

(* ---------------------------------------------------------------- *)
(** *** IPC.GENERATED_DELETE *)

Definition GENERATED_DELETE (req : DeleteGeneratedFileRequest) : M unit :=
  items ← store_list;
  match List.find (has_id (del_id req)) items with
  | None => throw (makeErr FILE_NOT_FOUND "Arquivo não encontrado no histórico." None None)
  | Some found =>
      try_catch
        (fs ← gets files;
         if existsSync fs (gf_path found) then unlinkSync (gf_path found) else mret tt)
        (λ e, throw (makeErr FILE_DELETE_FAILED "Não foi possível apagar o arquivo."
                       (Some (js_message e)) None));;
      store_remove (del_id req);;
      emitGeneratedChanged DELETED;;
      mret tt
  end.

(* ---------------------------------------------------------------- *)
(** *** IPC.JOB_START *)

Definition run_params (req : StartJobRequest) : RunParams :=
  {| rp_audioPath := audioPath req;
     rp_language := or_default (language req) "pt";
     rp_model := or_default (modelId req) "small";
     rp_granularity := nullish (granularity req) MEDIUM |}.

(** The body of the [try] block. *)
Definition job_body (req : StartJobRequest) (jobId : string) (runner : Runner)
    : M StartJobResponse :=
  emitJobProgress jobId TRANSCRIBING "Transcrevendo áudio (whisper)...";;
  res ← runner_run runner (run_params req);
  match format req with
  | srt => copyFileSync (srtPath res) (outputPath req)
  | ass =>
      let tmpAss := replace_srt_ext (srtPath res) in
      convert (srtPath res) tmpAss;;
      copyFileSync tmpAss (outputPath req)
  end;;
  emitJobProgress jobId CONVERTING "Preparando legenda...";;
  sleep 50;;
  emitJobProgress jobId SAVING "Salvando arquivo...";;
  itemId ← randomUUID;
  let created :=
    {| gf_id := itemId;
       gf_path := outputPath req;
       gf_fileName := basename (outputPath req) "";
       gf_format := format req;
       gf_language := language req;
       gf_modelId := modelId req;
       gf_createdAtISO := now_iso E;
       gf_exists := true |} in
  store_add created;;
  emitGeneratedChanged CREATED;;
  content ← readFileSync (srtPath res);
  preview ← lift_sum (parseSrt E content);
  emitJobDone jobId
    {| ref_id := gf_id created; ref_path := gf_path created;
       ref_fileName := gf_fileName created |} preview;;
  emitJobProgress jobId DONE "Concluído.";;
  mret {| sj_jobId := jobId |}.

Definition JOB_START (req : StartJobRequest) : M StartJobResponse :=
  jobId ← randomUUID;
  throw_if (bool_decide (audioPath req = ""))
    (makeErr AUDIO_NOT_SELECTED "Selecione um áudio." None (Some PICK_AUDIO));;
  throw_if (bool_decide (outputPath req = ""))
    (makeErr OUTPUT_PATH_REQUIRED "Escolha onde salvar antes de gerar." None
       (Some CHOOSE_OUTPUT));;
  emitJobProgress jobId PREPARING "Validando arquivos e modelo...";;
  runner ← new_WhisperRunner;
  runners_set jobId runner;;
  try_finally
    (try_catch (job_body req jobId runner)
       (λ e,
          emitJobError jobId
            (makeErr WHISPER_FAILED "Falha ao transcrever com Whisper."
               (Some (js_message e)) None);;
          throw e))
    (runners_delete jobId).

(* ---------------------------------------------------------------- *)
(** *** IPC.JOB_CANCEL *)

Definition JOB_CANCEL (jobId : string) : M unit :=
  r ← runners_get jobId;
  match r with
  | Some r => runner_cancel r;; runners_delete jobId
  | None => mret tt
  end;;
  mret tt.

End Handlers.


(* ================================================================== *)
(** ** Concrete environments and worlds *)
(* ================================================================== *)

Definition no_faults : FsOp → option string := λ _, None.

Definition two_cues : list SubtitleCueDTO :=
  [ {| cue_index := 1; startMs := 0; endMs := 1500; cue_text := "Hello" |};
    {| cue_index := 2; startMs := 1500; endMs := 3200; cue_text := "World" |} ].

Definition engine_srt : string := "/tmp/legenda-job/audio.srt".

(** An engine that succeeds and leaves its subtitle file behind. *)
Definition engine_ok (params : RunParams) (fs : Files)
    : JsError + (RunResult * Files) :=
  inr ({| srtPath := engine_srt |}, <[engine_srt := "1 Hello 2 World"]> fs).

(** An engine that exits with a failure status. *)
Definition engine_fails (params : RunParams) (fs : Files)
    : JsError + (RunResult * Files) :=
  inl (node_error "whisper exited with code 1").

Definition convert_ok (src dst : string) (fs : Files) : JsError + Files :=
  match fs !! src with
  | Some content => inr (<[dst := "[Script Info] " +:+ content]> fs)
  | None => inl (ENOENT src)
  end.

Definition env_with (engine : RunParams → Files → JsError + (RunResult * Files)) : Env :=
  {| sanitizeBaseName := λ s, s;
     convertSrtFileToAss := convert_ok;
     parseSrt := λ _, inr two_cues;
     whisper_run := engine;
     uuid_at := λ n, "uuid-" +:+ pretty n;
     now_iso := "2024-05-01T12:00:00.000Z";
     os_fault := no_faults |}.

Definition env_ok : Env := env_with engine_ok.
Definition env_failing : Env := env_with engine_fails.

Definition empty_world : World :=
  {| catalog := []; files := ∅; runners := ∅; runner_calls := [];
     next_runner := 0; events := []; rng := 0 |}.

Definition req_srt : StartJobRequest :=
  {| audioPath := "/home/u/talk.mp3"; language := Some "en"; modelId := Some "base";
     format := srt; outputPath := "/home/u/talk.srt"; granularity := Some HIGH |}.

Definition req_ass : StartJobRequest :=
  {| audioPath := "/home/u/talk.mp3"; language := Some "en"; modelId := Some "base";
     format := ass; outputPath := "/home/u/talk.ass"; granularity := Some HIGH |}.

(** A request that leaves every optional field out. *)
Definition req_bare : StartJobRequest :=
  {| audioPath := "/home/u/talk.mp3"; language := None; modelId := Some "";
     format := srt; outputPath := "/home/u/talk.srt"; granularity := None |}.

Definition req_no_audio : StartJobRequest :=
  {| audioPath := ""; language := Some "en"; modelId := Some "base";
     format := srt; outputPath := "/home/u/talk.srt"; granularity := None |}.

Definition req_no_output : StartJobRequest :=
  {| audioPath := "/home/u/talk.mp3"; language := Some "en"; modelId := Some "base";
     format := srt; outputPath := ""; granularity := None |}.

Definition record_X : GeneratedFileDTO :=
  {| gf_id := "id-1"; gf_path := "/out/X.srt"; gf_fileName := "X.srt";
     gf_format := srt; gf_language := Some "pt"; gf_modelId := Some "small";
     gf_createdAtISO := "2024-04-30T08:00:00.000Z"; gf_exists := true |}.

Definition record_Y : GeneratedFileDTO :=
  {| gf_id := "id-2"; gf_path := "/out/Y.ass"; gf_fileName := "Y.ass";
     gf_format := ass; gf_language := Some "en"; gf_modelId := Some "tiny";
     gf_createdAtISO := "2024-04-30T09:00:00.000Z"; gf_exists := true |}.

Definition world_with (items : list GeneratedFileDTO) (fs : Files) : World :=
  {| catalog := items; files := fs; runners := ∅; runner_calls := [];
     next_runner := 0; events := []; rng := 0 |}.

(** Both records catalogued, both files on disk. *)
Definition world_XY : World :=
  world_with [record_X; record_Y] (<["/out/X.srt" := "x"]> (<["/out/Y.ass" := "y"]> ∅)).

(** Both records catalogued, the file of the first one gone. *)
Definition world_X_gone : World :=
  world_with [record_X; record_Y] (<["/out/Y.ass" := "y"]> ∅).

(** A job in flight: runner 0 registered for "job-7". *)
Definition world_running : World :=
  {| catalog := []; files := ∅; runners := <["job-7" := 0]> ∅;
     runner_calls := []; next_runner := 1;
     events := [JobProgress "job-7" PREPARING "Validando arquivos e modelo...";
                JobProgress "job-7" TRANSCRIBING "Transcrevendo áudio (whisper)..."];
     rng := 1 |}.

(* ================================================================== *)
(** ** Observations on a run *)
(* ================================================================== *)

(** What was sent to the window between world [w] and a later world [w']. *)
Definition emitted (w w' : World) : list IpcEvent :=
  drop (length (events w)) (events w').

(** The phases announced for one job, in the order of emission. *)
Definition progress_steps (jobId : string) (evs : list IpcEvent) : list JobStep :=
  omap (λ ev, match ev with
              | JobProgress j step _ => if bool_decide (j = jobId) then Some step else None
              | _ => None
              end) evs.

(** The errors announced for one job. *)
Definition job_errors (jobId : string) (evs : list IpcEvent) : list JsError :=
  omap (λ ev, match ev with
              | JobError j err => if bool_decide (j = jobId) then Some err else None
              | _ => None
              end) evs.

Definition is_job_error (ev : IpcEvent) : bool :=
  match ev with JobError _ _ => true | _ => false end.

(** The structured error an [Error] carries: kind, message, detail. *)
Definition structured (e : JsError) : option (ErrCode * string * option string) :=
  match appError e with
  | Some a => Some (code a, message a, details a)
  | None => None
  end.

(** The error the [catch] of JOB_START sends to the window for a caught
    error [e]. *)
Definition wrapped (e : JsError) : JsError :=
  makeErr WHISPER_FAILED "Falha ao transcrever com Whisper." (Some (js_message e)) None.

(** The phase sequence as the specification words it: CONVERTING only
    when the requested format is not the engine's own ([srt]). *)
Definition spec_phase_sequence (f : SubtitleFormat) : list JobStep :=
  [PREPARING; TRANSCRIBING]
  ++ (if bool_decide (f = srt) then [] else [CONVERTING])
  ++ [SAVING; DONE].

(** The job identifier a call of JOB_START draws in world [w]. *)
Definition job_id_of (E : Env) (w : World) : string := uuid_at E (rng w).

(** An environment in which the copy to the output path is refused. *)
Definition copy_refused : FsOp → option string := λ op,
  match op with
  | OpCopy _ _ => Some "ENOENT: no such file or directory, copyfile"
  | _ => None
  end.

Definition env_copy_refused : Env :=
  {| sanitizeBaseName := λ s, s;
     convertSrtFileToAss := convert_ok;
     parseSrt := λ _, inr two_cues;
     whisper_run := engine_ok;
     uuid_at := λ n, "uuid-" +:+ pretty n;
     now_iso := "2024-05-01T12:00:00.000Z";
     os_fault := copy_refused |}.

(** A catalog that already holds the identifier the next job will draw
    for its record. *)
Definition world_id_taken : World :=
  world_with [{| gf_id := "uuid-1"; gf_path := "/out/old.srt"; gf_fileName := "old.srt";
                 gf_format := srt; gf_language := Some "pt"; gf_modelId := Some "small";
                 gf_createdAtISO := "2024-04-30T08:00:00.000Z"; gf_exists := true |}] ∅.

(** X.srt taken; X.srt and X (1).srt taken. *)
Definition fs_X : Files := <["/out/X.srt" := "x"]> ∅.
Definition fs_X_X1 : Files := <["/out/X (1).srt" := "x1"]> fs_X.

(* ================================================================== *)
(** ** Further observations and environments *)
(* ================================================================== *)

(** The record JOB_START builds for the store when the identifier it
    draws for it is the [n]-th UUID. *)
Definition created_record {P : PathApi} (E : Env) (req : StartJobRequest) (n : nat)
    : GeneratedFileDTO :=
  {| gf_id := uuid_at E n;
     gf_path := outputPath req;
     gf_fileName := basename (outputPath req) "";
     gf_format := format req;
     gf_language := language req;
     gf_modelId := modelId req;
     gf_createdAtISO := now_iso E;
     gf_exists := true |}.

Definition ref_of (x : GeneratedFileDTO) : GeneratedRef :=
  {| ref_id := gf_id x; ref_path := gf_path x; ref_fileName := gf_fileName x |}.

Definition is_created (ev : IpcEvent) : bool :=
  match ev with GeneratedChanged CREATED => true | _ => false end.

(** The world in which the [try] block of JOB_START starts: the job
    identifier drawn, PREPARING announced, the runner created and
    registered. *)
Definition after_prologue (E : Env) (w : World) : World :=
  set_runners (<[job_id_of E w := next_runner w]> (runners w))
    (alloc_runner
       (emit (JobProgress (job_id_of E w) PREPARING "Validando arquivos e modelo...")
          (draw w))).

(** Path and file name of a record agree. *)
Definition name_matches_path {P : PathApi} (x : GeneratedFileDTO) : Prop :=
  gf_fileName x = basename (gf_path x) "".

(** An environment whose subtitle parser throws. *)
Definition env_parse_fails : Env :=
  {| sanitizeBaseName := λ s, s;
     convertSrtFileToAss := convert_ok;
     parseSrt := λ _, inl (node_error "bad subtitle file");
     whisper_run := engine_ok;
     uuid_at := λ n, "uuid-" +:+ pretty n;
     now_iso := "2024-05-01T12:00:00.000Z";
     os_fault := no_faults |}.

(** An environment in which renames and unlinks are refused. *)
Definition mutation_refused : FsOp → option string := λ op,
  match op with
  | OpRename _ _ => Some "EACCES: permission denied, rename"
  | OpUnlink _ => Some "EACCES: permission denied, unlink"
  | _ => None
  end.

Definition env_mutation_refused : Env :=
  {| sanitizeBaseName := λ s, s;
     convertSrtFileToAss := convert_ok;
     parseSrt := λ _, inr two_cues;
     whisper_run := engine_ok;
     uuid_at := λ n, "uuid-" +:+ pretty n;
     now_iso := "2024-05-01T12:00:00.000Z";
     os_fault := mutation_refused |}.

(** One call of a catalog-changing handler, with the environment it runs
    in, and a sequence of such calls run one after the other. *)
Inductive Call :=
  | CallStart (req : StartJobRequest)
  | CallRename (req : RenameGeneratedFileRequest)
  | CallDelete (req : DeleteGeneratedFileRequest)
  | CallStop (jobId : string).

Definition step {P : PathApi} (ec : Env * Call) (w : World) : World :=
  match ec with
  | (E, CallStart req) => snd (JOB_START E req w)
  | (E, CallRename req) => snd (GENERATED_RENAME E req w)
  | (E, CallDelete req) => snd (GENERATED_DELETE E req w)
  | (_, CallStop jobId) => snd (JOB_CANCEL jobId w)
  end.

Definition run_calls {P : PathApi} (calls : list (Env * Call)) (w : World) : World :=
  fold_left (λ w ec, step ec w) calls w.

(* ================================================================== *)
(** ** The handlers that reach the desktop shell *)
(* ================================================================== *)

Record OpenGeneratedFileRequest := { open_id : string }.

Record ShowInFolderRequest := { show_id : string }.

(** The calls made on Electron's [shell]. *)
Inductive ShellCall :=
  | OpenPath (p : string)
  | ShowItemInFolder (p : string).

(** IPC.GENERATED_OPEN.  [shell] is the list of shell calls made so far;
    the handler returns it extended.  The string [shell.openPath]
    resolves to is not looked at. *)
Definition GENERATED_OPEN (req : OpenGeneratedFileRequest) (shell : list ShellCall)
    : M (list ShellCall) :=
  items ← store_list;
  match List.find (has_id (open_id req)) items with
  | None => throw (makeErr FILE_NOT_FOUND "Arquivo não encontrado no histórico." None None)
  | Some found =>
      fs ← gets files;
      throw_if (negb (existsSync fs (gf_path found)))
        (makeErr FILE_NOT_FOUND "Arquivo não existe mais no disco." None None);;
      mret (shell ++ [OpenPath (gf_path found)])
  end.

(** IPC.GENERATED_SHOW_IN_FOLDER *)
Definition GENERATED_SHOW_IN_FOLDER (req : ShowInFolderRequest) (shell : list ShellCall)
    : M (list ShellCall) :=
  items ← store_list;
  match List.find (has_id (show_id req)) items with
  | None => throw (makeErr FILE_NOT_FOUND "Arquivo não encontrado no histórico." None None)
  | Some found => mret (shell ++ [ShowItemInFolder (gf_path found)])
  end.

(* ================================================================== *)
(** ** IPC.GET_FILE_URL *)
(* ================================================================== *)

(** Buffer.from(s, "utf8").toString("base64url"): three bytes become four
    characters of the URL-safe alphabet, and the last group is not
    padded.  A string stands for its UTF-8 bytes. *)
Module Base64Url.

Definition alphabet : list ascii :=
  list_ascii_of_string
    "ABCDEFGHIJKLMNOPQRSTUVWXYZabcdefghijklmnopqrstuvwxyz0123456789-_".

Definition sextet (n : nat) : ascii := nth n alphabet "A"%char.

Fixpoint encode_bytes (l : list nat) : list ascii :=
  match l with
  | [] => []
  | [a] => [sextet (a / 4); sextet (a mod 4 * 16)]
  | [a; b] =>
      [sextet (a / 4); sextet (a mod 4 * 16 + b / 16); sextet (b mod 16 * 4)]
  | a :: b :: c :: rest =>
      sextet (a / 4) :: sextet (a mod 4 * 16 + b / 16)
      :: sextet (b mod 16 * 4 + c / 64) :: sextet (c mod 64)
      :: encode_bytes rest
  end.

Definition encode (s : string) : string :=
  string_of_list_ascii (encode_bytes (map nat_of_ascii (list_ascii_of_string s))).

(** The position of a character in the alphabet (64 if it has none). *)
Fixpoint index_of (c : ascii) (l : list ascii) : nat :=
  match l with
  | [] => 0
  | x :: l' => if bool_decide (x = c) then 0 else S (index_of c l')
  end.

Definition unsextet (c : ascii) : nat := index_of c alphabet.

(** Reading the bytes back from the positions. *)
Fixpoint decode_sextets (l : list nat) : list nat :=
  match l with
  | s0 :: s1 :: s2 :: s3 :: rest =>
      (s0 * 4 + s1 / 16) :: (s1 mod 16 * 16 + s2 / 4) :: (s2 mod 4 * 64 + s3)
      :: decode_sextets rest
  | [s0; s1; s2] => [s0 * 4 + s1 / 16; s1 mod 16 * 16 + s2 / 4]
  | [s0; s1] => [s0 * 4 + s1 / 16]
  | _ => []
  end.

End Base64Url.

Inductive GetFileUrlResponseDTO :=
  | UrlOk (url : string)
  | UrlFail (message : string).

(** String.prototype.toLowerCase on the letters A to Z; other bytes are
    kept.  No character outside ASCII lower-cases to a letter of the
    extensions compared with below, so nothing is lost for them. *)
Definition lower_ascii (c : ascii) : ascii :=
  let n := nat_of_ascii c in
  if (65 <=? n) && (n <=? 90) then ascii_of_nat (n + 32) else c.

Definition toLowerCase (s : string) : string :=
  string_of_list_ascii (map lower_ascii (list_ascii_of_string s)).

(** new Set([".mp3", ".wav", ".m4a", ".aac", ".ogg", ".flac"]) *)
Definition allowed_audio_ext : list string :=
  [".mp3"; ".wav"; ".m4a"; ".aac"; ".ogg"; ".flac"].

(** The extensions of the filter of the audio picker (IPC.PICK_AUDIO). *)
Definition picker_extensions : list string :=
  ["mp3"; "wav"; "m4a"; "flac"; "ogg"; "aac"].

(** The [files] map tells which paths exist; whether an existing path is
    a regular file is what [fs.statSync(p).isFile()] answers, and
    [statSync] may throw.  [absPath] is [None] when the argument is not a
    string. *)
Definition GET_FILE_URL {P : PathApi} (isFile : string → JsError + bool)
    (absPath : option string) : M GetFileUrlResponseDTO :=
  try_catch
    (match absPath with
     | None => mret (UrlFail "Caminho inválido.")
     | Some p =>
         if bool_decide (p = "") then mret (UrlFail "Caminho inválido.")
         else
           fs ← gets files;
           if negb (existsSync fs p) then mret (UrlFail "Arquivo não encontrado.")
           else
             is_file ← lift_sum (isFile p);
             if negb is_file then mret (UrlFail "O caminho não é um arquivo.")
             else
               let ext := toLowerCase (extname p) in
               if negb (bool_decide (ext ∈ allowed_audio_ext))
               then mret (UrlFail "Formato de áudio não suportado.")
               else
                 let encoded := Base64Url.encode p in
                 mret (UrlOk ("appfile://audio?path=" +:+ encoded))
     end)
    (λ err,
       mret (UrlFail (if bool_decide (js_message err = "")
                      then "Falha ao gerar URL." else js_message err))).

Definition always_file : string → JsError + bool := λ _, inr true.

(** A music folder with one track, and a directory among the paths. *)
Definition world_music : World :=
  world_with [] (<["/music/Talk.MP3" := "audio"]> (<["/music" := ""]> ∅)).

Definition stat_music : string → JsError + bool := λ p,
  if bool_decide (p = "/music") then inr false else inr true.

(* ================================================================== *)
(** ** The renderer's helpers (App.tsx) *)
(* ================================================================== *)

Module Renderer.

(** function baseNameFromFile(name): what precedes the last dot, unless
    there is no dot or the last dot opens the name. *)
Definition baseNameFromFile (name : string) : string :=
  let l := list_ascii_of_string name in
  match Posix.last_dot l 0 None with
  | Some (S i) => string_of_list_ascii (take (S i) l)
  | _ => name
  end.

(** String(r).padStart(2, "0") *)
Definition padStart2 (s : string) : string :=
  match String.length s with
  | 0 => "00"
  | 1 => "0" +:+ s
  | _ => s
  end.

(** A whole number of milliseconds below 2^53.  These are the values a
    JavaScript number holds exactly, and on them the two divisions, the
    [Math.floor] calls and the remainder of formatMs give the exact
    quotients and remainder; larger values are outside this model. *)
Record SafeMs := {
  ms_value : N;
  ms_safe : (ms_value <? 2 ^ 53)%N = true
}.

(** function formatMs(ms) *)
Definition formatMs (ms : SafeMs) : string :=
  let s := (ms_value ms / 1000)%N in
  let m := (s / 60)%N in
  let r := (s mod 60)%N in
  pretty m +:+ ":" +:+ padStart2 (pretty r).

Definition safe_ms (n : N) (H : (n <? 2 ^ 53)%N = true) : SafeMs :=
  {| ms_value := n; ms_safe := H |}.

(** The sanitizer works on a JavaScript string, a sequence of UTF-16
    code units, since its patterns name characters outside ASCII. *)
Abbreviation CodeUnits := (list N).

(** What [\s] matches and [trim] removes: the white space and line
    terminator characters of the language. *)
Definition is_space (c : N) : bool :=
  (((9 <=? c) && (c <=? 13)) || (c =? 32) || (c =? 0xA0) || (c =? 0x1680)
   || ((0x2000 <=? c) && (c <=? 0x200A))
   || (c =? 0x2028) || (c =? 0x2029) || (c =? 0x202F) || (c =? 0x205F)
   || (c =? 0x3000) || (c =? 0xFEFF))%N.

(** The character class of the first pattern: the characters
    [<], [>], [:], the double quote, [/], the backslash, [|], [?], [*]
    and the code units up to U+001F. *)
Definition is_forbidden (c : N) : bool :=
  ((c =? 60) || (c =? 62) || (c =? 58) || (c =? 34) || (c =? 47) || (c =? 92)
   || (c =? 124) || (c =? 63) || (c =? 42) || (c <=? 0x1F))%N.

(** String.prototype.trim *)
Definition trim (l : CodeUnits) : CodeUnits :=
  rev (Posix.drop_while is_space (rev (Posix.drop_while is_space l))).

(** replace(/\s+/g, " "): every maximal run of white space becomes one
    space; [in_run] tells that the previous unit was white space. *)
Fixpoint collapse_spaces (in_run : bool) (l : CodeUnits) : CodeUnits :=
  match l with
  | [] => []
  | c :: l' =>
      if is_space c
      then (if in_run then collapse_spaces true l'
            else 32%N :: collapse_spaces true l')
      else c :: collapse_spaces false l'
  end.

(** function sanitizeBaseName(input) *)
Definition sanitizeBaseName (input : CodeUnits) : CodeUnits :=
  let trimmed := trim input in
  let cleaned := List.filter (λ c, negb (is_forbidden c)) trimmed in
  trim (collapse_spaces false cleaned).

Definition starts_with_space (l : CodeUnits) : bool :=
  match l with c :: _ => is_space c | [] => false end.

Fixpoint no_double_space (l : CodeUnits) : bool :=
  match l with
  | c :: l' => negb (is_space c && starts_with_space l') && no_double_space l'
  | [] => true
  end.

(** A name in the form the sanitizer produces: no forbidden unit, no
    white space other than single U+0020 between other units. *)
Definition tidy (l : CodeUnits) : bool :=
  forallb (λ c, negb (is_forbidden c) && (negb (is_space c) || (c =? 32)%N)) l
  && no_double_space l
  && negb (starts_with_space l) && negb (starts_with_space (rev l)).

(** The code units of an ASCII string. *)
Definition units (s : string) : CodeUnits :=
  map N_of_ascii (list_ascii_of_string s).

End Renderer.

(** A directory in which X.srt and all of X (1).srt ... X (999).srt are
    taken. *)
Definition fs_X_full : Files :=
  foldr (λ i fs, <[candidate (P:=posix_path) "/out" "X" ".srt" i := ""]> fs) fs_X
    (seq 1 999).


(** An engine that rejects with a structured error of its own. *)
Definition engine_rejects (params : RunParams) (fs : Files)
    : JsError + (RunResult * Files) :=
  inl (makeErr WHISPER_FAILED "whisper exited with code 1"
         (Some "stderr: failed to load model") None).

Definition env_rejecting : Env := env_with engine_rejects.



(* ================================================================== *)
(** ** Proof support *)
(* ================================================================== *)

Ltac unfold_m :=
  unfold mbind, M_bind, mret, M_ret, throw, throw_if, gets, modify,
    lift_sum, try_catch, try_finally, sleep in *.

Ltac unfold_ops :=
  unfold store_list, store_add, store_update, store_remove,
    emitJobProgress, emitJobDone, emitJobError, emitGeneratedChanged,
    new_WhisperRunner, runners_set, runners_get, runners_delete,
    runner_cancel, runner_run, convert, copyFileSync, renameSync,
    unlinkSync, readFileSync, randomUUID, os_check in *.

Lemma emitted_app w w' evs : events w' = events w ++ evs → emitted w w' = evs.
Proof. intros Heq. unfold emitted. rewrite Heq. by rewrite drop_app_length. Qed.

(* ------------------------------------------------------------------ *)
(** *** The POSIX path functions on the cases of Node's documentation *)

Example posix_dirname :
  Posix.dirname "/foo/bar/baz/asdf/quux" = "/foo/bar/baz/asdf"
  ∧ Posix.dirname "quux.srt" = "." ∧ Posix.dirname "/quux.srt" = "/"
  ∧ Posix.dirname "/foo/bar/" = "/foo".
Proof. repeat split. Qed.

Example posix_extname :
  Posix.extname "index.html" = ".html" ∧ Posix.extname "index.coffee.md" = ".md"
  ∧ Posix.extname "index." = "." ∧ Posix.extname "index" = ""
  ∧ Posix.extname ".index" = "" ∧ Posix.extname ".index.md" = ".md"
  ∧ Posix.extname "/a/b/.." = "".
Proof. repeat split. Qed.

Example posix_basename :
  Posix.basename "/foo/bar/baz/asdf/quux.html" "" = "quux.html"
  ∧ Posix.basename "/foo/bar/baz/asdf/quux.html" ".html" = "quux"
  ∧ Posix.basename "/foo/.html" ".html" = ".html"
  ∧ Posix.basename "/foo/bar/" "" = "bar".
Proof. repeat split. Qed.

Example posix_join :
  Posix.join "/foo" "bar" = "/foo/bar" ∧ Posix.join "/foo/bar" "../baz" = "/foo/baz"
  ∧ Posix.join "." "quux.srt" = "quux.srt" ∧ Posix.join "/" "quux.srt" = "/quux.srt"
  ∧ Posix.join "/foo//bar/" "./baz" = "/foo/bar/baz" ∧ Posix.join "" "" = ".".
Proof. repeat split. Qed.

Example posix_replace_srt_ext :
  replace_srt_ext "/tmp/job/audio.srt" = "/tmp/job/audio.ass"
  ∧ replace_srt_ext "/tmp/job/AUDIO.SRT" = "/tmp/job/AUDIO.ass"
  ∧ replace_srt_ext "/tmp/job/audio.srt.txt" = "/tmp/job/audio.srt.txt".
Proof. repeat split. Qed.

(* ------------------------------------------------------------------ *)
(** *** The probe loop *)

Section Probe.

Context {P : PathApi}.
Variables (fs : Files) (dir base ext : string).

Lemma probe_first_free n i k :
  i ≤ k < i + n →
  (∀ j, i ≤ j < k → existsSync fs (candidate dir base ext j) = true) →
  existsSync fs (candidate dir base ext k) = false →
  probe fs dir base ext n i = Some (candidate dir base ext k).
Proof.
  revert i. induction n as [|n IH]; intros i Hk Hbelow Hfree; [lia|].
  simpl. destruct (decide (i = k)) as [->|Hne].
  - by rewrite Hfree.
  - rewrite Hbelow by lia. apply IH; [lia| |done].
    intros j Hj. apply Hbelow. lia.
Qed.

Lemma probe_all_taken n i :
  (∀ j, i ≤ j < i + n → existsSync fs (candidate dir base ext j) = true) →
  probe fs dir base ext n i = None.
Proof.
  revert i. induction n as [|n IH]; intros i Hall; [done|].
  simpl. rewrite Hall by lia. apply IH. intros j Hj. apply Hall. lia.
Qed.

Lemma probe_some n i c :
  probe fs dir base ext n i = Some c →
  ∃ k, i ≤ k < i + n ∧ c = candidate dir base ext k
       ∧ existsSync fs c = false.
Proof.
  revert i. induction n as [|n IH]; intros i Hp; [done|].
  simpl in Hp. destruct (existsSync fs (candidate dir base ext i)) eqn:Hi.
  - destruct (IH _ Hp) as (k & Hk & -> & Hfree). exists k. split; [lia|done].
  - inversion Hp; subst. exists i. split; [lia|done].
Qed.

End Probe.

Lemma resolve_shape {P : PathApi} fs p :
  resolveNonCollidingPath fs p = p
  ∨ ∃ i, 1 ≤ i < 1000
         ∧ resolveNonCollidingPath fs p
           = candidate (dirname p) (basename p (extname p)) (extname p) i.
Proof.
  unfold resolveNonCollidingPath.
  destruct (existsSync fs p); cbn [negb]; [|by left].
  destruct (probe fs (dirname p) (basename p (extname p)) (extname p) 999 1)
    as [c|] eqn:Hp; [|by left].
  apply probe_some in Hp as (k & Hk & -> & _). right. exists k. split; [lia|done].
Qed.


(* ================================================================== *)
(** ** Rename collision resolution *)
(* ================================================================== *)

(** C3. When a file already exists at the desired path [p], the resolver
    tries the candidates built from [p] with the suffixes (1), (2), ... in
    that order and returns the first one at which no file exists; it
    tries at most the candidates 1 to 999, and when all of them are taken
    it returns [p] itself. *)
Theorem resolve_collision_first_free {P : PathApi} (fs : Files) (p : string) :
  existsSync fs p = true →
  let c := candidate (dirname p) (basename p (extname p)) (extname p) in
  (∀ k, 1 ≤ k < 1000 →
        (∀ j, 1 ≤ j < k → existsSync fs (c j) = true) →
        existsSync fs (c k) = false →
        resolveNonCollidingPath fs p = c k)
  ∧ ((∀ j, 1 ≤ j < 1000 → existsSync fs (c j) = true) →
     resolveNonCollidingPath fs p = p).
Proof.
  intros Hp c. unfold resolveNonCollidingPath. rewrite Hp. cbn [negb]. split.
  - intros k Hk Hbelow Hfree.
    rewrite (probe_first_free fs (dirname p) (basename p (extname p)) (extname p)
               999 1 k); [done|lia|done|done].
  - intros Hall. rewrite probe_all_taken; [done|].
    intros j Hj. apply Hall. lia.
Qed.

Lemma resolve_collision_first_free_witness :
  resolveNonCollidingPath (P:=posix_path) fs_X_X1 "/out/X.srt" = "/out/X (2).srt".
Proof.
  destruct (resolve_collision_first_free (P:=posix_path) fs_X_X1 "/out/X.srt" eq_refl)
    as [Hfirst _].
  apply (Hfirst 2).
  - split; [repeat constructor|]. apply Nat.ltb_lt. reflexivity.
  - intros j [Hj1 Hj2]. destruct j as [|[|j]].
    + inversion Hj1.
    + reflexivity.
    + exfalso. apply Nat.ltb_lt in Hj2. discriminate Hj2.
  - reflexivity.
Defined.

(** The two cases the specification lists: one collision gives X (1).ext,
    a second one gives X (2).ext; no collision leaves the path alone. *)
Example resolve_one_collision :
  resolveNonCollidingPath (P:=posix_path) fs_X "/out/X.srt" = "/out/X (1).srt".
Proof. reflexivity. Qed.

Example resolve_two_collisions :
  resolveNonCollidingPath (P:=posix_path) fs_X_X1 "/out/X.srt" = "/out/X (2).srt".
Proof. reflexivity. Qed.

Example candidate_shape :
  candidate (P:=posix_path) "/out" "X" ".srt" 12 = "/out/X (12).srt"
  ∧ candidate (P:=posix_path) "/out" "X" ".srt" 999 = "/out/X (999).srt".
Proof. repeat split. Qed.

Example resolve_no_collision :
  resolveNonCollidingPath (P:=posix_path) fs_X "/out/Z.srt" = "/out/Z.srt".
Proof. reflexivity. Qed.

(* ================================================================== *)
(** ** Listing *)
(* ================================================================== *)

Lemma with_exists_twice x b c : with_exists (with_exists x c) b = with_exists x b.
Proof. done. Qed.

Lemma list_map_forget_flag fs (l : list GeneratedFileDTO) :
  map (λ x, with_exists x (existsSync fs (gf_path x))) l
  = map (λ x, with_exists x (existsSync fs (gf_path x)))
      (map (λ x, with_exists x false) l).
Proof. rewrite map_map. apply map_ext. intros x. done. Qed.

(** C8. Listing returns the catalogued records in order, each with its
    existence flag set to what the file system says about the record's
    path at that moment; the flag stored in the catalog plays no part:
    two catalogs that differ only in stored flags list the same. *)
Theorem list_existence_from_disk (w : World) :
  ∃ items,
    GENERATED_LIST w = (Normal items, w)
    ∧ length items = length (catalog w)
    ∧ (∀ i x, catalog w !! i = Some x →
         ∃ y, items !! i = Some y
              ∧ gf_exists y = existsSync (files w) (gf_path x)
              ∧ gf_id y = gf_id x ∧ gf_path y = gf_path x
              ∧ gf_fileName y = gf_fileName x ∧ gf_format y = gf_format x
              ∧ gf_language y = gf_language x ∧ gf_modelId y = gf_modelId x
              ∧ gf_createdAtISO y = gf_createdAtISO x)
    ∧ (∀ w2, files w2 = files w →
         map (λ x, with_exists x false) (catalog w2)
         = map (λ x, with_exists x false) (catalog w) →
         fst (GENERATED_LIST w2) = Normal items).
Proof.
  eexists. split; [reflexivity|]. split; [by rewrite length_map|]. split.
  - intros i x Hx. eexists. split.
    + rewrite list_lookup_fmap, Hx. reflexivity.
    + done.
  - intros w2 Hfs Hcat. unfold GENERATED_LIST. unfold_m. unfold store_list.
    unfold_m. simpl. f_equal. rewrite Hfs.
    rewrite (list_map_forget_flag _ (catalog w2)), Hcat.
    by rewrite <- list_map_forget_flag.
Qed.

Lemma list_existence_from_disk_witness :
  fst (GENERATED_LIST world_X_gone)
  = Normal [with_exists record_X false; record_Y]
  ∧ fst (GENERATED_LIST
           (world_with [with_exists record_X false; with_exists record_Y false]
              (files world_X_gone)))
    = Normal [with_exists record_X false; record_Y].
Proof.
  destruct (list_existence_from_disk world_X_gone) as (items & Hrun & _ & _ & Hind).
  assert (Hitems : items = [with_exists record_X false; record_Y]).
  { apply (f_equal fst) in Hrun. simpl in Hrun.
    assert (Hn : Normal (map (λ x, with_exists x (existsSync (files world_X_gone) (gf_path x)))
                      (catalog world_X_gone)) = Normal items) by exact Hrun.
    inversion Hn. reflexivity. }
  rewrite <- Hitems. split.
  - rewrite Hrun. reflexivity.
  - apply Hind; reflexivity.
Defined.

(* ================================================================== *)
(** ** Deleting *)
(* ================================================================== *)

Lemma filter_no_id id (l : list GeneratedFileDTO) x :
  x ∈ List.filter (λ y, negb (has_id id y)) l → gf_id x ≠ id.
Proof.
  rewrite list_elem_of_In, filter_In. intros [_ Hx].
  unfold has_id in Hx. apply negb_true_iff, bool_decide_eq_false in Hx. done.
Qed.

(** C5. Deleting a catalogued record whose file is no longer on disk
    succeeds: no deletion error is raised, the record leaves the catalog,
    one DELETED notification is sent and the file system is not touched. *)
Theorem delete_missing_file_succeeds (E : Env) (req : DeleteGeneratedFileRequest)
    (w : World) (found : GeneratedFileDTO) :
  List.find (has_id (del_id req)) (catalog w) = Some found →
  existsSync (files w) (gf_path found) = false →
  ∃ w', GENERATED_DELETE E req w = (Normal tt, w')
        ∧ catalog w' = List.filter (λ x, negb (has_id (del_id req) x)) (catalog w)
        ∧ (∀ x, x ∈ catalog w' → gf_id x ≠ del_id req)
        ∧ emitted w w' = [GeneratedChanged DELETED]
        ∧ files w' = files w.
Proof.
  intros Hfind Hgone. unfold GENERATED_DELETE. unfold_ops. unfold_m. simpl.
  rewrite Hfind. simpl. rewrite Hgone. simpl.
  eexists. split; [reflexivity|]. simpl. split; [done|]. split.
  - intros x. apply filter_no_id.
  - split; [|done]. by apply emitted_app.
Qed.

Lemma delete_missing_file_succeeds_witness :
  ∃ w', GENERATED_DELETE env_ok {| del_id := "id-1" |} world_X_gone = (Normal tt, w')
        ∧ catalog w' = [record_Y]
        ∧ emitted world_X_gone w' = [GeneratedChanged DELETED].
Proof.
  destruct (delete_missing_file_succeeds env_ok {| del_id := "id-1" |}
              world_X_gone record_X eq_refl eq_refl)
    as (w' & Hrun & Hcat & _ & Hev & _).
  exists w'. split; [exact Hrun|]. split; [|exact Hev].
  rewrite Hcat. reflexivity.
Defined.

(* ================================================================== *)
(** ** Renaming *)
(* ================================================================== *)

(** C7. A rename is rejected with FILE_NOT_FOUND when no record has the
    identifier, with FILE_NOT_FOUND when the record's file is no longer
    on disk, and with VALIDATION_ERROR when the sanitized name is empty
    (the checks run in this order); in each case the world after the call
    is the world before it: no file moved, no record updated, no event
    sent. *)
Theorem rename_rejections_leave_world {P : PathApi} (E : Env)
    (req : RenameGeneratedFileRequest) (w : World) :
  (List.find (has_id (rn_id req)) (catalog w) = None →
   GENERATED_RENAME E req w
   = (Thrown (makeErr FILE_NOT_FOUND "Arquivo não encontrado no histórico." None None), w))
  ∧ (∀ found,
       List.find (has_id (rn_id req)) (catalog w) = Some found →
       existsSync (files w) (gf_path found) = false →
       GENERATED_RENAME E req w
       = (Thrown (makeErr FILE_NOT_FOUND "Arquivo não existe mais no disco." None None), w))
  ∧ (∀ found,
       List.find (has_id (rn_id req)) (catalog w) = Some found →
       existsSync (files w) (gf_path found) = true →
       sanitizeBaseName E (newBaseName req) = "" →
       GENERATED_RENAME E req w
       = (Thrown (makeErr VALIDATION_ERROR "Nome inválido." None None), w)).
Proof.
  unfold GENERATED_RENAME. unfold_ops. unfold_m. simpl. repeat split.
  - by intros ->.
  - intros found -> Hgone. simpl. by rewrite Hgone.
  - intros found -> Hthere Hempty. simpl. rewrite Hthere, Hempty. done.
Qed.

Lemma rename_rejections_leave_world_witness :
  GENERATED_RENAME (P:=posix_path) env_ok {| rn_id := "id-9"; newBaseName := "Z" |} world_XY
  = (Thrown (makeErr FILE_NOT_FOUND "Arquivo não encontrado no histórico." None None),
     world_XY)
  ∧ GENERATED_RENAME (P:=posix_path) env_ok {| rn_id := "id-1"; newBaseName := "Z" |}
      world_X_gone
    = (Thrown (makeErr FILE_NOT_FOUND "Arquivo não existe mais no disco." None None),
       world_X_gone)
  ∧ GENERATED_RENAME (P:=posix_path) env_ok {| rn_id := "id-1"; newBaseName := "" |} world_XY
    = (Thrown (makeErr VALIDATION_ERROR "Nome inválido." None None), world_XY).
Proof.
  split; [|split].
  - apply (rename_rejections_leave_world (P:=posix_path) env_ok
             {| rn_id := "id-9"; newBaseName := "Z" |} world_XY). reflexivity.
  - apply (rename_rejections_leave_world (P:=posix_path) env_ok
             {| rn_id := "id-1"; newBaseName := "Z" |} world_X_gone) with (found := record_X);
      reflexivity.
  - apply (rename_rejections_leave_world (P:=posix_path) env_ok
             {| rn_id := "id-1"; newBaseName := "" |} world_XY) with (found := record_X);
      reflexivity.
Defined.

Lemma find_has_id id (l : list GeneratedFileDTO) x :
  List.find (has_id id) l = Some x → gf_id x = id.
Proof.
  intros Hf. apply find_some in Hf as [_ Hx].
  unfold has_id in Hx. by apply bool_decide_eq_true in Hx.
Qed.

Lemma replace_first_length id f (l : list GeneratedFileDTO) :
  length (replace_first id f l) = length l.
Proof.
  induction l as [|x l IH]; [done|]. simpl.
  destruct (has_id id x); simpl; [done|]. by rewrite IH.
Qed.


Lemma replace_first_find id u (l : list GeneratedFileDTO) found :
  List.find (has_id id) l = Some found → gf_id u = id →
  List.find (has_id id) (replace_first id (λ _, u) l) = Some u.
Proof.
  intros Hf Hu. induction l as [|y l IH]; [done|]. simpl in *.
  destruct (has_id id y) eqn:Hy; simpl.
  - unfold has_id at 1. by rewrite bool_decide_eq_true_2.
  - rewrite Hy. by apply IH.
Qed.





(** The renderer's sanitizer lets such a name through unchanged. *)
Example dotted_name_survives_sanitizer :
  Renderer.sanitizeBaseName (Renderer.units "v1.final") = Renderer.units "v1.final".
Proof. vm_compute. reflexivity. Qed.

(** Two runs on POSIX paths in which the directory and the extension
    stay: the base name is the requested one, with a suffix when that
    name is taken. *)
Example rename_plain :
  fst (GENERATED_RENAME (P:=posix_path) env_ok
         {| rn_id := "id-2"; newBaseName := "Z" |} world_XY)
  = Normal (renamed (P:=posix_path) record_Y "/out/Z.ass").
Proof. reflexivity. Qed.

Example rename_keeps_directory_and_extension :
  Posix.dirname "/out/Z.ass" = Posix.dirname (gf_path record_Y)
  ∧ Posix.extname "/out/Z.ass" = Posix.extname (gf_path record_Y)
  ∧ Posix.dirname "/out/X (1).srt" = Posix.dirname (gf_path record_X)
  ∧ Posix.extname "/out/X (1).srt" = Posix.extname (gf_path record_X).
Proof. repeat split. Qed.

Example rename_onto_existing :
  fst (GENERATED_RENAME (P:=posix_path) env_ok
         {| rn_id := "id-1"; newBaseName := "X" |} world_XY)
  = Normal (renamed (P:=posix_path) record_X "/out/X (1).srt").
Proof. reflexivity. Qed.

(* ================================================================== *)
(** ** The job pipeline *)
(* ================================================================== *)

Lemma job_body_spec {P : PathApi} (E : Env) req jobId r w c w' :
  job_body E req jobId r w = (c, w') →
  runner_calls w' = runner_calls w ++ [CallRun r (run_params req)]
  ∧ runners w' = runners w
  ∧ ∃ evs,
      events w' = events w
                  ++ JobProgress jobId TRANSCRIBING "Transcrevendo áudio (whisper)..." :: evs
      ∧ forallb (λ ev, negb (is_job_error ev)) evs = true
      ∧ match c with
        | Normal resp =>
            resp = {| sj_jobId := jobId |}
            ∧ ∃ g preview,
                evs = [JobProgress jobId CONVERTING "Preparando legenda...";
                       JobProgress jobId SAVING "Salvando arquivo...";
                       GeneratedChanged CREATED;
                       JobDone jobId g preview;
                       JobProgress jobId DONE "Concluído."]
        | Thrown _ => True
        end.
Proof.
  unfold job_body. unfold_ops. unfold_m. simpl. intros Hrun.
  repeat (first [progress (unfold_m; simpl in * ) | case_match]; simplify_eq/=).
  all: split; [done|]; split; [done|].
  all: rewrite <- ?app_assoc; simpl; eexists; split; [reflexivity|].
  all: split; [done|]; try done.
  all: split; [done|]; eauto.
Qed.

Lemma JOB_START_spec {P : PathApi} (E : Env) req w c w' :
  audioPath req ≠ "" → outputPath req ≠ "" →
  JOB_START E req w = (c, w') →
  runner_calls w' = runner_calls w ++ [CallRun (next_runner w) (run_params req)]
  ∧ runners w' = delete (job_id_of E w) (runners w)
  ∧ ∃ evs,
      forallb (λ ev, negb (is_job_error ev)) evs = true
      ∧ match c with
        | Normal resp =>
            resp = {| sj_jobId := job_id_of E w |}
            ∧ events w'
              = events w
                ++ [JobProgress (job_id_of E w) PREPARING "Validando arquivos e modelo...";
                    JobProgress (job_id_of E w) TRANSCRIBING
                      "Transcrevendo áudio (whisper)..."]
                ++ evs
            ∧ ∃ g preview,
                evs = [JobProgress (job_id_of E w) CONVERTING "Preparando legenda...";
                       JobProgress (job_id_of E w) SAVING "Salvando arquivo...";
                       GeneratedChanged CREATED;
                       JobDone (job_id_of E w) g preview;
                       JobProgress (job_id_of E w) DONE "Concluído."]
        | Thrown e =>
            events w'
            = events w
              ++ [JobProgress (job_id_of E w) PREPARING "Validando arquivos e modelo...";
                  JobProgress (job_id_of E w) TRANSCRIBING
                    "Transcrevendo áudio (whisper)..."]
              ++ evs ++ [JobError (job_id_of E w) (wrapped e)]
        end.
Proof.
  intros Haudio Hout. unfold JOB_START, job_id_of.
  unfold randomUUID, new_WhisperRunner, runners_set, runners_delete, emitJobProgress,
    emitJobError.
  unfold_m. simpl.
  rewrite !bool_decide_eq_false_2 by done. simpl.
  match goal with |- context [job_body E req ?j ?r ?w0] =>
    destruct (job_body E req j r w0) as [c0 w0'] eqn:Hbody end.
  apply job_body_spec in Hbody as (Hcalls & Hrun & evs & Hev & Hno & Hc). simpl in *.
  destruct c0 as [resp|e]; simpl; intros Hres; inversion Hres; subst; clear Hres; simpl.
  - rewrite Hcalls, Hrun, delete_insert_eq. split; [done|]. split; [done|].
    exists evs. split; [done|]. destruct Hc as [-> Hevs]. split; [done|].
    split; [|done]. rewrite Hev, <- !app_assoc. done.
  - rewrite Hcalls, Hrun, delete_insert_eq. split; [done|]. split; [done|].
    exists evs. split; [done|]. rewrite Hev, <- !app_assoc. done.
Qed.

Lemma job_errors_none jobId evs :
  forallb (λ ev, negb (is_job_error ev)) evs = true → job_errors jobId evs = [].
Proof.
  induction evs as [|ev evs IH]; [done|]. simpl.
  intros [Hev Hrest]%andb_true_iff. unfold job_errors in *. simpl.
  destruct ev; simpl in *; try done; by apply IH.
Qed.

Lemma job_errors_app jobId evs1 evs2 :
  job_errors jobId (evs1 ++ evs2) = job_errors jobId evs1 ++ job_errors jobId evs2.
Proof. apply omap_app. Qed.

(** A rejection of the engine is the failure of the call. *)
Lemma engine_failure_propagates {P : PathApi} (E : Env) req w e :
  audioPath req ≠ "" → outputPath req ≠ "" →
  whisper_run E (run_params req) (files w) = inl e →
  fst (JOB_START E req w) = Thrown e.
Proof.
  intros Haudio Hout Hengine. unfold JOB_START, job_body. unfold_ops. unfold_m. simpl.
  rewrite !bool_decide_eq_false_2 by done. simpl. rewrite Hengine. done.
Qed.

(** C1. In a successful run the phases announced for the job are
    PREPARING, TRANSCRIBING, CONVERTING, SAVING, DONE, in this order and
    each once, whatever the requested format: CONVERTING is announced for
    [srt] requests as well. *)
Theorem successful_run_phases {P : PathApi} (E : Env) (req : StartJobRequest)
    (w w' : World) (resp : StartJobResponse) :
  JOB_START E req w = (Normal resp, w') →
  sj_jobId resp = job_id_of E w
  ∧ progress_steps (sj_jobId resp) (emitted w w')
    = [PREPARING; TRANSCRIBING; CONVERTING; SAVING; DONE].
Proof.
  intros Hrun.
  assert (Haudio : audioPath req ≠ "").
  { intros Hempty. revert Hrun. unfold JOB_START, randomUUID. unfold_m. simpl.
    rewrite Hempty. simpl. discriminate. }
  assert (Hout : outputPath req ≠ "").
  { intros Hempty. revert Hrun. unfold JOB_START, randomUUID. unfold_m. simpl.
    rewrite bool_decide_eq_false_2 by done. rewrite Hempty. simpl. discriminate. }
  apply JOB_START_spec in Hrun as (_ & _ & evs & _ & -> & Hev & g & pv & ->);
    [|done..].
  split; [done|]. simpl. erewrite emitted_app by exact Hev.
  unfold progress_steps. simpl. rewrite !bool_decide_eq_true_2 by done. done.
Qed.

Lemma successful_run_phases_witness :
  progress_steps "uuid-0"
    (emitted empty_world (snd (JOB_START (P:=posix_path) env_ok req_ass empty_world)))
  = [PREPARING; TRANSCRIBING; CONVERTING; SAVING; DONE].
Proof.
  apply (successful_run_phases (P:=posix_path) env_ok req_ass empty_world
           (snd (JOB_START (P:=posix_path) env_ok req_ass empty_world))
           {| sj_jobId := "uuid-0" |}).
  vm_compute. reflexivity.
Defined.

(** C1, as the specification words it, fails: a successful [srt] run,
    where nothing is converted, announces CONVERTING all the same. *)
Lemma converting_announced_for_srt :
  let run := JOB_START (P:=posix_path) env_ok req_srt empty_world in
  fst run = Normal {| sj_jobId := "uuid-0" |}
  ∧ format req_srt = srt
  ∧ progress_steps "uuid-0" (emitted empty_world (snd run))
    = [PREPARING; TRANSCRIBING; CONVERTING; SAVING; DONE]
  ∧ progress_steps "uuid-0" (emitted empty_world (snd run))
    ≠ spec_phase_sequence (format req_srt).
Proof. vm_compute. repeat split; discriminate. Qed.


(** C2, as the specification words it, fails: when the copy to the
    output path is refused, the caller gets Node's error while the event
    carries a WHISPER_FAILED error with another message. *)
Lemma error_channels_differ :
  let run := JOB_START (P:=posix_path) env_copy_refused req_srt empty_world in
  let thrown := node_error "ENOENT: no such file or directory, copyfile" in
  let sent := wrapped thrown in
  fst run = Thrown thrown
  ∧ job_errors "uuid-0" (emitted empty_world (snd run)) = [sent]
  ∧ structured sent ≠ structured thrown
  ∧ js_message sent ≠ js_message thrown.
Proof. vm_compute. repeat split; discriminate. Qed.

(** The same for a failure of the store, whose error is structured: the
    kinds differ. *)
Example store_failure_channels :
  let run := JOB_START (P:=posix_path) env_ok req_srt world_id_taken in
  let thrown := makeErr VALIDATION_ERROR "duplicate identifier" None None in
  fst run = Thrown thrown
  ∧ job_errors "uuid-0" (emitted world_id_taken (snd run)) = [wrapped thrown]
  ∧ structured (wrapped thrown)
    = Some (WHISPER_FAILED, "Falha ao transcrever com Whisper.", Some "duplicate identifier")
  ∧ structured thrown = Some (VALIDATION_ERROR, "duplicate identifier", None).
Proof. vm_compute. repeat split. Qed.

(** C4. A request with an empty audio path is rejected with
    AUDIO_NOT_SELECTED, and a request with an audio path but an empty
    output path with OUTPUT_PATH_REQUIRED (the audio path is checked
    first); in both cases nothing was sent to the window, no runner was
    created, registered or started, and the catalog and the files are as
    before: only a job identifier was drawn. *)
Theorem start_validation_no_effects {P : PathApi} (E : Env) (req : StartJobRequest)
    (w : World) :
  let untouched (w' : World) :=
    w' = draw w ∧ emitted w w' = [] ∧ events w' = events w
    ∧ runners w' = runners w ∧ runner_calls w' = runner_calls w
    ∧ next_runner w' = next_runner w
    ∧ catalog w' = catalog w ∧ files w' = files w in
  (audioPath req = "" →
   ∃ w', JOB_START E req w
         = (Thrown (makeErr AUDIO_NOT_SELECTED "Selecione um áudio." None
                      (Some PICK_AUDIO)), w')
         ∧ untouched w')
  ∧ (audioPath req ≠ "" → outputPath req = "" →
     ∃ w', JOB_START E req w
           = (Thrown (makeErr OUTPUT_PATH_REQUIRED "Escolha onde salvar antes de gerar."
                        None (Some CHOOSE_OUTPUT)), w')
           ∧ untouched w').
Proof.
  intros untouched.
  assert (Hdraw : untouched (draw w)).
  { unfold untouched, emitted. simpl. rewrite drop_all. done. }
  unfold JOB_START, randomUUID. unfold_m. simpl. split.
  - intros ->. simpl. by exists (draw w).
  - intros Haudio ->. rewrite bool_decide_eq_false_2 by done. simpl.
    by exists (draw w).
Qed.

Lemma start_validation_no_effects_witness :
  (∃ w', JOB_START (P:=posix_path) env_ok req_no_audio world_running
         = (Thrown (makeErr AUDIO_NOT_SELECTED "Selecione um áudio." None
                      (Some PICK_AUDIO)), w')
         ∧ events w' = events world_running
         ∧ runner_calls w' = runner_calls world_running)
  ∧ (∃ w', JOB_START (P:=posix_path) env_ok req_no_output world_running
           = (Thrown (makeErr OUTPUT_PATH_REQUIRED "Escolha onde salvar antes de gerar."
                        None (Some CHOOSE_OUTPUT)), w')
           ∧ events w' = events world_running
           ∧ runner_calls w' = runner_calls world_running).
Proof.
  split.
  - destruct (start_validation_no_effects (P:=posix_path) env_ok req_no_audio world_running)
      as [Haudio _].
    destruct (Haudio eq_refl) as (w' & Hrun & _ & _ & Hev & _ & Hcalls & _).
    exists w'. split; [exact Hrun|]. split; [exact Hev|exact Hcalls].
  - destruct (start_validation_no_effects (P:=posix_path) env_ok req_no_output world_running)
      as [_ Hout].
    destruct (Hout ltac:(discriminate) eq_refl) as (w' & Hrun & _ & _ & Hev & _ & Hcalls & _).
    exists w'. split; [exact Hrun|]. split; [exact Hev|exact Hcalls].
Defined.

(** C10. Once a request has passed validation the runner is started
    exactly once, with the audio path of the request, the language or
    "pt" when the language is absent or empty, the model identifier or
    "small" when it is absent or empty, and the density preset or MEDIUM
    when it is absent. *)
Theorem start_passes_defaults {P : PathApi} (E : Env) (req : StartJobRequest) (w : World) :
  audioPath req ≠ "" → outputPath req ≠ "" →
  ∃ p,
    runner_calls (snd (JOB_START E req w))
    = runner_calls w ++ [CallRun (next_runner w) p]
    ∧ rp_audioPath p = audioPath req
    ∧ (language req = None ∨ language req = Some "" → rp_language p = "pt")
    ∧ (∀ l, language req = Some l → l ≠ "" → rp_language p = l)
    ∧ (modelId req = None ∨ modelId req = Some "" → rp_model p = "small")
    ∧ (∀ m, modelId req = Some m → m ≠ "" → rp_model p = m)
    ∧ (granularity req = None → rp_granularity p = MEDIUM)
    ∧ (∀ g, granularity req = Some g → rp_granularity p = g).
Proof.
  intros Haudio Hout. exists (run_params req).
  destruct (JOB_START E req w) as [c w'] eqn:Hrun.
  apply JOB_START_spec in Hrun as (Hcalls & _); [|done..].
  split; [done|]. split; [done|]. unfold run_params, or_default, nullish. simpl.
  repeat split.
  - by intros [-> | ->].
  - intros l -> Hl. by rewrite bool_decide_eq_false_2.
  - by intros [-> | ->].
  - intros m -> Hm. by rewrite bool_decide_eq_false_2.
  - by intros ->.
  - by intros g ->.
Qed.

Lemma start_passes_defaults_witness :
  runner_calls (snd (JOB_START (P:=posix_path) env_failing req_bare empty_world))
  = [CallRun 0 {| rp_audioPath := "/home/u/talk.mp3"; rp_language := "pt";
                  rp_model := "small"; rp_granularity := MEDIUM |}].
Proof.
  destruct (start_passes_defaults (P:=posix_path) env_failing req_bare empty_world)
    as (p & Hcalls & Haudio & Hlang & _ & Hmodel & _ & Hgran & _);
    [discriminate | discriminate |].
  rewrite Hcalls. destruct p as [a l m g]. simpl in *.
  rewrite Haudio, (Hlang (or_introl eq_refl)), (Hmodel (or_intror eq_refl)),
    (Hgran eq_refl).
  reflexivity.
Defined.

(* ================================================================== *)
(** ** Cancelling *)
(* ================================================================== *)

Lemma JOB_CANCEL_unregistered jobId w :
  runners w !! jobId = None → JOB_CANCEL jobId w = (Normal tt, w).
Proof.
  intros Hnone. unfold JOB_CANCEL, runners_get. unfold_m. cbv beta. by rewrite Hnone.
Qed.

(** C6. Cancelling never throws and sends nothing to the window.  If a
    runner is registered for the job, its [cancel] is called and the job
    leaves the registry at once; if none is, the world is left as it is.
    So a second cancel in a row changes nothing, and neither does a
    cancel after the job has run to its end, successfully or not. *)
Theorem cancel_is_safe_and_silent {P : PathApi} (jobId : string) (w : World) :
  ∃ w1,
    JOB_CANCEL jobId w = (Normal tt, w1)
    ∧ events w1 = events w
    ∧ runners w1 !! jobId = None
    ∧ (∀ r, runners w !! jobId = Some r →
            runner_calls w1 = runner_calls w ++ [CallCancel r]
            ∧ runners w1 = delete jobId (runners w))
    ∧ (runners w !! jobId = None → w1 = w)
    ∧ JOB_CANCEL jobId w1 = (Normal tt, w1)
    ∧ (∀ (E : Env) (req : StartJobRequest) c w2,
         audioPath req ≠ "" → outputPath req ≠ "" →
         JOB_START E req w = (c, w2) →
         JOB_CANCEL (job_id_of E w) w2 = (Normal tt, w2)).
Proof.
  assert (Hafter : ∀ (E : Env) (req : StartJobRequest) c w2,
             audioPath req ≠ "" → outputPath req ≠ "" →
             JOB_START E req w = (c, w2) →
             JOB_CANCEL (job_id_of E w) w2 = (Normal tt, w2)).
  { intros E req c w2 Haudio Hout Hrun.
    apply JOB_START_spec in Hrun as (_ & Hreg & _); [|done..].
    apply JOB_CANCEL_unregistered. rewrite Hreg. apply lookup_delete_eq. }
  destruct (runners w !! jobId) as [r|] eqn:Hreg.
  - eexists. split.
    { unfold JOB_CANCEL, runners_get, runner_cancel, runners_delete. unfold_m. cbv beta.
      rewrite Hreg. reflexivity. }
    simpl. split; [done|]. split; [apply lookup_delete_eq|]. split.
    { intros r' Hr'. by inversion Hr'; subst. }
    split; [done|]. split; [|done].
    apply JOB_CANCEL_unregistered. simpl. apply lookup_delete_eq.
  - exists w. rewrite JOB_CANCEL_unregistered by done. done.
Qed.

Lemma cancel_is_safe_and_silent_witness :
  ∃ w1,
    JOB_CANCEL "job-7" world_running = (Normal tt, w1)
    ∧ runner_calls w1 = [CallCancel 0]
    ∧ runners w1 = delete "job-7" (runners world_running)
    ∧ events w1 = events world_running
    ∧ JOB_CANCEL "job-7" w1 = (Normal tt, w1).
Proof.
  destruct (cancel_is_safe_and_silent (P:=posix_path) "job-7" world_running)
    as (w1 & Hrun & Hev & _ & Hreg & _ & Hagain & _).
  destruct (Hreg 0 eq_refl) as [Hcalls Hdel].
  exists w1. split; [exact Hrun|]. split; [exact Hcalls|]. split; [exact Hdel|].
  split; [exact Hev|exact Hagain].
Defined.

(** Cancelling the job of a finished run: nothing happens. *)
Example cancel_after_done :
  let w1 := snd (JOB_START (P:=posix_path) env_ok req_srt empty_world) in
  JOB_CANCEL "uuid-0" w1 = (Normal tt, w1).
Proof. vm_compute. reflexivity. Qed.

(* ================================================================== *)
(** ** More on collision resolution *)
(* ================================================================== *)

Lemma probe_none {P : PathApi} fs dir base ext n i :
  probe fs dir base ext n i = None →
  ∀ j, i ≤ j < i + n → existsSync fs (candidate dir base ext j) = true.
Proof.
  revert i. induction n as [|n IH]; intros i Hp j Hj; [lia|].
  simpl in Hp. destruct (existsSync fs (candidate dir base ext i)) eqn:Hi; [|done].
  destruct (decide (j = i)) as [->|Hne]; [done|]. apply (IH (S i)); [done|lia].
Qed.

(** X1. The resolved path is taken only in the exhausted case: if a file
    exists at the path the resolver returns, then that path is the
    requested one and all 999 suffixed candidates are taken as well. *)
Theorem resolve_taken_only_when_exhausted {P : PathApi} (fs : Files) (p : string) :
  existsSync fs (resolveNonCollidingPath fs p) = true →
  resolveNonCollidingPath fs p = p
  ∧ ∀ i, 1 ≤ i < 1000 →
         existsSync fs (candidate (dirname p) (basename p (extname p)) (extname p) i)
         = true.
Proof.
  unfold resolveNonCollidingPath.
  destruct (existsSync fs p) eqn:Hp; cbn [negb]; [|by rewrite Hp].
  destruct (probe fs (dirname p) (basename p (extname p)) (extname p) 999 1)
    as [c|] eqn:Hprobe.
  - apply probe_some in Hprobe as (k & _ & _ & Hfree). by rewrite Hfree.
  - intros _. split; [done|]. intros i Hi. eapply probe_none; [exact Hprobe|lia].
Qed.

Lemma resolve_taken_only_when_exhausted_witness :
  resolveNonCollidingPath (P:=posix_path) fs_X_full "/out/X.srt" = "/out/X.srt".
Proof.
  apply (resolve_taken_only_when_exhausted (P:=posix_path) fs_X_full "/out/X.srt").
  vm_compute. reflexivity.
Defined.

(** X2. Asking for the name a file already has does not keep its path:
    the requested path is the file's own, so it counts as taken and the
    file is moved to the first free suffixed candidate. *)
Theorem rename_to_own_name_adds_suffix {P : PathApi} (E : Env)
    (req : RenameGeneratedFileRequest) (w : World) (found : GeneratedFileDTO) :
  let own := gf_path found in
  let c1 := candidate (dirname own) (basename own (extname own)) (extname own) 1 in
  List.find (has_id (rn_id req)) (catalog w) = Some found →
  existsSync (files w) own = true →
  sanitizeBaseName E (newBaseName req) ≠ "" →
  join (dirname own) (sanitizeBaseName E (newBaseName req) +:+ extname own) = own →
  existsSync (files w) c1 = false →
  os_fault E (OpRename own c1) = None →
  fst (GENERATED_RENAME E req w) = Normal (renamed found c1).
Proof.
  intros own c1 Hfind Hthere Hbase Hown Hfree Hos.
  unfold GENERATED_RENAME. unfold_ops. unfold_m. simpl.
  rewrite Hfind. simpl. fold own. rewrite Hthere. simpl.
  rewrite bool_decide_eq_false_2 by done. simpl. rewrite Hown.
  assert (Hres : resolveNonCollidingPath (files w) own = c1).
  { unfold resolveNonCollidingPath. rewrite Hthere. cbn [negb].
    rewrite (probe_first_free (files w) (dirname own) (basename own (extname own))
               (extname own) 999 1 1); [done|lia| |done].
    intros j Hj. lia. }
  rewrite Hres, Hos. simpl.
  unfold existsSync in Hthere. apply bool_decide_eq_true in Hthere as [content Hc].
  rewrite Hc. simpl.
  assert (Hex : existsb (has_id (rn_id req)) (catalog w) = true).
  { apply existsb_exists. exists found. apply find_some in Hfind. done. }
  rewrite Hex. done.
Qed.

Lemma rename_to_own_name_adds_suffix_witness :
  fst (GENERATED_RENAME (P:=posix_path) env_ok {| rn_id := "id-1"; newBaseName := "X" |}
         world_XY)
  = Normal (renamed (P:=posix_path) record_X "/out/X (1).srt").
Proof.
  apply (rename_to_own_name_adds_suffix (P:=posix_path) env_ok
           {| rn_id := "id-1"; newBaseName := "X" |} world_XY record_X);
    try reflexivity.
  discriminate.
Defined.

(* ================================================================== *)
(** ** More on renaming and deleting *)
(* ================================================================== *)

(** X3. A successful rename moves the file: the new path holds what the
    old path held, the old path (when different) is gone, every other
    path is as before, and exactly one RENAMED notification was sent. *)
Theorem rename_moves_file {P : PathApi} (E : Env) (req : RenameGeneratedFileRequest)
    (w w' : World) (item : GeneratedFileDTO) :
  GENERATED_RENAME E req w = (Normal item, w') →
  ∃ found content,
    List.find (has_id (rn_id req)) (catalog w) = Some found
    ∧ files w !! gf_path found = Some content
    ∧ files w' !! gf_path item = Some content
    ∧ (gf_path item ≠ gf_path found → files w' !! gf_path found = None)
    ∧ (∀ p, p ≠ gf_path item → p ≠ gf_path found → files w' !! p = files w !! p)
    ∧ emitted w w' = [GeneratedChanged RENAMED]
    ∧ runners w' = runners w ∧ runner_calls w' = runner_calls w.
Proof.
  unfold GENERATED_RENAME. unfold_ops. unfold_m. simpl.
  destruct (List.find (has_id (rn_id req)) (catalog w)) as [found|] eqn:Hfind;
    [|discriminate].
  destruct (existsSync (files w) (gf_path found)); simpl; [|discriminate].
  destruct (bool_decide (sanitizeBaseName E (newBaseName req) = "")); simpl;
    [discriminate|].
  destruct (os_fault E _); simpl; [discriminate|].
  destruct (files w !! gf_path found) as [content|] eqn:Hc; simpl; [|discriminate].
  destruct (existsb _ _); simpl; [|discriminate].
  intros Hrun. inversion Hrun; subst; clear Hrun. simpl.
  exists found, content. split; [done|]. split; [done|].
  split; [apply lookup_insert_eq|]. split.
  { intros Hne. rewrite lookup_insert_ne by done. apply lookup_delete_eq. }
  split.
  { intros p Hp1 Hp2. rewrite lookup_insert_ne by done. by rewrite lookup_delete_ne. }
  split; [|done]. by apply emitted_app.
Qed.

Lemma rename_moves_file_witness :
  ∃ found content,
    List.find (has_id "id-2") (catalog world_XY) = Some found
    ∧ files world_XY !! gf_path found = Some content
    ∧ content = "y".
Proof.
  destruct (rename_moves_file (P:=posix_path) env_ok
              {| rn_id := "id-2"; newBaseName := "Z" |} world_XY
              (snd (GENERATED_RENAME (P:=posix_path) env_ok
                      {| rn_id := "id-2"; newBaseName := "Z" |} world_XY))
              (renamed (P:=posix_path) record_Y "/out/Z.ass") eq_refl)
    as (found & content & Hfind & Hold & Hnew & _).
  exists found, content. split; [exact Hfind|]. split; [exact Hold|].
  assert (Hy : Some content = Some "y") by (rewrite <- Hnew; reflexivity).
  inversion Hy. reflexivity.
Defined.

(** X4. When the operating system refuses the rename, the call fails
    with FILE_RENAME_FAILED carrying the system's message as detail, and
    the world is left as it was: the record keeps its old path and no
    notification is sent. *)
Theorem rename_refused_changes_nothing {P : PathApi} (E : Env)
    (req : RenameGeneratedFileRequest) (w : World) (found : GeneratedFileDTO)
    (msg : string) :
  let base := sanitizeBaseName E (newBaseName req) in
  let finalPath :=
    resolveNonCollidingPath (files w)
      (join (dirname (gf_path found)) (base +:+ extname (gf_path found))) in
  List.find (has_id (rn_id req)) (catalog w) = Some found →
  existsSync (files w) (gf_path found) = true →
  base ≠ "" →
  os_fault E (OpRename (gf_path found) finalPath) = Some msg →
  GENERATED_RENAME E req w
  = (Thrown (makeErr FILE_RENAME_FAILED "Não foi possível renomear o arquivo."
               (Some msg) None), w).
Proof.
  intros base finalPath Hfind Hthere Hbase Hos.
  unfold GENERATED_RENAME. unfold_ops. unfold_m. simpl.
  rewrite Hfind. simpl. rewrite Hthere. simpl.
  fold base. rewrite bool_decide_eq_false_2 by done. simpl.
  fold finalPath. rewrite Hos. done.
Qed.

Lemma rename_refused_changes_nothing_witness :
  GENERATED_RENAME (P:=posix_path) env_mutation_refused
    {| rn_id := "id-2"; newBaseName := "Z" |} world_XY
  = (Thrown (makeErr FILE_RENAME_FAILED "Não foi possível renomear o arquivo."
               (Some "EACCES: permission denied, rename") None), world_XY).
Proof.
  apply (rename_refused_changes_nothing (P:=posix_path) env_mutation_refused
           {| rn_id := "id-2"; newBaseName := "Z" |} world_XY record_Y);
    try reflexivity.
  discriminate.
Defined.

Lemma find_after_remove id (l : list GeneratedFileDTO) :
  List.find (has_id id) (List.filter (λ x, negb (has_id id x)) l) = None.
Proof.
  induction l as [|x l IH]; [done|]. simpl.
  destruct (has_id id x) eqn:Hx; simpl; [done|]. by rewrite Hx.
Qed.

(** X5. Deleting a record whose file is on disk removes the file and the
    record and sends one DELETED notification; every other file is as
    before. *)
Theorem delete_removes_file_and_record (E : Env) (req : DeleteGeneratedFileRequest)
    (w : World) (found : GeneratedFileDTO) :
  List.find (has_id (del_id req)) (catalog w) = Some found →
  existsSync (files w) (gf_path found) = true →
  os_fault E (OpUnlink (gf_path found)) = None →
  ∃ w', GENERATED_DELETE E req w = (Normal tt, w')
        ∧ files w' = delete (gf_path found) (files w)
        ∧ existsSync (files w') (gf_path found) = false
        ∧ catalog w' = List.filter (λ x, negb (has_id (del_id req) x)) (catalog w)
        ∧ List.find (has_id (del_id req)) (catalog w') = None
        ∧ emitted w w' = [GeneratedChanged DELETED].
Proof.
  intros Hfind Hthere Hos. unfold GENERATED_DELETE. unfold_ops. unfold_m. simpl.
  rewrite Hfind. simpl. rewrite Hthere, Hos. simpl.
  pose proof Hthere as Hlook.
  unfold existsSync in Hlook. apply bool_decide_eq_true in Hlook as [content Hc].
  rewrite Hc. simpl. eexists. split; [reflexivity|]. simpl.
  split; [done|]. split.
  { unfold existsSync. apply bool_decide_eq_false_2.
    rewrite lookup_delete_eq. by intros [? ?]. }
  split; [done|]. split; [|by apply emitted_app].
  apply find_after_remove.
Qed.

Lemma delete_removes_file_and_record_witness :
  ∃ w', GENERATED_DELETE env_ok {| del_id := "id-1" |} world_XY = (Normal tt, w')
        ∧ existsSync (files w') "/out/X.srt" = false
        ∧ catalog w' = [record_Y].
Proof.
  destruct (delete_removes_file_and_record env_ok {| del_id := "id-1" |} world_XY record_X
              eq_refl eq_refl eq_refl)
    as (w' & Hrun & _ & Hgone & Hcat & _).
  exists w'. split; [exact Hrun|]. split; [exact Hgone|]. rewrite Hcat. reflexivity.
Defined.

Lemma delete_unknown_id (E : Env) (req : DeleteGeneratedFileRequest) (w : World) :
  List.find (has_id (del_id req)) (catalog w) = None →
  GENERATED_DELETE E req w
  = (Thrown (makeErr FILE_NOT_FOUND "Arquivo não encontrado no histórico." None None), w).
Proof.
  unfold GENERATED_DELETE. unfold_ops. unfold_m. simpl. by intros ->.
Qed.

(** X6. A delete that cannot go through changes nothing: with no record
    for the identifier it fails with FILE_NOT_FOUND, and when the
    operating system refuses to unlink the file it fails with
    FILE_DELETE_FAILED carrying the system's message; in both cases the
    catalog, the files and the events are as before. *)
Theorem delete_failures_change_nothing (E : Env) (req : DeleteGeneratedFileRequest)
    (w : World) :
  (List.find (has_id (del_id req)) (catalog w) = None →
   GENERATED_DELETE E req w
   = (Thrown (makeErr FILE_NOT_FOUND "Arquivo não encontrado no histórico." None None), w))
  ∧ (∀ found msg,
       List.find (has_id (del_id req)) (catalog w) = Some found →
       existsSync (files w) (gf_path found) = true →
       os_fault E (OpUnlink (gf_path found)) = Some msg →
       GENERATED_DELETE E req w
       = (Thrown (makeErr FILE_DELETE_FAILED "Não foi possível apagar o arquivo."
                    (Some msg) None), w)).
Proof.
  split; [apply delete_unknown_id|].
  unfold GENERATED_DELETE. unfold_ops. unfold_m. simpl.
  intros found msg -> Hthere Hos. simpl. rewrite Hthere, Hos. done.
Qed.

Lemma delete_failures_change_nothing_witness :
  GENERATED_DELETE env_ok {| del_id := "id-9" |} world_XY
  = (Thrown (makeErr FILE_NOT_FOUND "Arquivo não encontrado no histórico." None None),
     world_XY)
  ∧ GENERATED_DELETE env_mutation_refused {| del_id := "id-1" |} world_XY
    = (Thrown (makeErr FILE_DELETE_FAILED "Não foi possível apagar o arquivo."
                 (Some "EACCES: permission denied, unlink") None), world_XY).
Proof.
  split.
  - apply (delete_failures_change_nothing env_ok {| del_id := "id-9" |} world_XY).
    reflexivity.
  - apply (delete_failures_change_nothing env_mutation_refused {| del_id := "id-1" |}
             world_XY) with (found := record_X); reflexivity.
Defined.

(** X7. Deleting the same record twice: whenever the first call
    succeeds, the second fails with FILE_NOT_FOUND and changes nothing. *)
Theorem delete_twice_not_found (E : Env) (req : DeleteGeneratedFileRequest)
    (w w' : World) :
  GENERATED_DELETE E req w = (Normal tt, w') →
  GENERATED_DELETE E req w'
  = (Thrown (makeErr FILE_NOT_FOUND "Arquivo não encontrado no histórico." None None), w').
Proof.
  intros Hrun. apply delete_unknown_id.
  revert Hrun. unfold GENERATED_DELETE. unfold_ops. unfold_m. simpl.
  destruct (List.find (has_id (del_id req)) (catalog w)) as [found|]; [|discriminate].
  simpl. intros Hrun.
  assert (Hcat : catalog w' = List.filter (λ x, negb (has_id (del_id req) x)) (catalog w)).
  { repeat (first [progress (unfold_m; simpl in * ) | case_match]; simplify_eq/=); done. }
  rewrite Hcat. apply find_after_remove.
Qed.

Lemma delete_twice_not_found_witness :
  GENERATED_DELETE env_ok {| del_id := "id-1" |}
    (snd (GENERATED_DELETE env_ok {| del_id := "id-1" |} world_XY))
  = (Thrown (makeErr FILE_NOT_FOUND "Arquivo não encontrado no histórico." None None),
     snd (GENERATED_DELETE env_ok {| del_id := "id-1" |} world_XY)).
Proof.
  apply (delete_twice_not_found env_ok {| del_id := "id-1" |} world_XY).
  vm_compute. reflexivity.
Defined.

(* ================================================================== *)
(** ** More on the job pipeline *)
(* ================================================================== *)

Lemma JOB_START_run {P : PathApi} (E : Env) req w c wb :
  audioPath req ≠ "" → outputPath req ≠ "" →
  job_body E req (job_id_of E w) (next_runner w) (after_prologue E w) = (c, wb) →
  JOB_START E req w
  = match c with
    | Normal resp => (Normal resp, set_runners (delete (job_id_of E w) (runners wb)) wb)
    | Thrown e =>
        (Thrown e,
         set_runners (delete (job_id_of E w) (runners wb))
           (emit (JobError (job_id_of E w) (wrapped e)) wb))
    end.
Proof.
  intros Haudio Hout Hbody. unfold JOB_START, after_prologue, job_id_of in *.
  unfold randomUUID, new_WhisperRunner, runners_set, runners_delete, emitJobProgress,
    emitJobError.
  unfold_m. simpl.
  rewrite !bool_decide_eq_false_2 by done. simpl.
  rewrite Hbody. by destruct c.
Qed.

Lemma JOB_START_validated {P : PathApi} (E : Env) req w resp w' :
  JOB_START E req w = (Normal resp, w') → audioPath req ≠ "" ∧ outputPath req ≠ "".
Proof.
  intros Hrun. split.
  - intros Hempty. revert Hrun. unfold JOB_START, randomUUID. unfold_m. simpl.
    rewrite Hempty. simpl. discriminate.
  - intros Hempty. revert Hrun. unfold JOB_START, randomUUID. unfold_m. simpl.
    destruct (bool_decide (audioPath req = "")); simpl; [discriminate|].
    rewrite Hempty. simpl. discriminate.
Qed.

(** C2. For a request that passed validation, the call fails with an
    error [e] exactly when the [try] block throws [e]: the failure
    propagated to the caller is the error of the step that failed,
    unchanged.  In that case exactly one error event was sent for the
    job, as the last event of the call, and the job is deregistered.
    The event carries the kind WHISPER_FAILED, the fixed message and, as
    detail, the message of [e]; this is the structured error of [e] only
    when [e] already carries that kind, that message and its own message
    as detail. *)
Theorem failed_run_reports_wrapped_error {P : PathApi} (E : Env) (req : StartJobRequest)
    (w : World) (e : JsError) :
  audioPath req ≠ "" → outputPath req ≠ "" →
  ((∃ wb, job_body E req (job_id_of E w) (next_runner w) (after_prologue E w)
          = (Thrown e, wb))
   ↔ (∃ w', JOB_START E req w = (Thrown e, w')))
  ∧ (∀ w', JOB_START E req w = (Thrown e, w') →
           job_errors (job_id_of E w) (emitted w w') = [wrapped e]
           ∧ last (emitted w w') = Some (JobError (job_id_of E w) (wrapped e))
           ∧ runners w' !! job_id_of E w = None)
  ∧ structured (wrapped e)
    = Some (WHISPER_FAILED, "Falha ao transcrever com Whisper.", Some (js_message e))
  ∧ (structured (wrapped e) = structured e
     ↔ structured e
       = Some (WHISPER_FAILED, "Falha ao transcrever com Whisper.",
               Some (js_message e))).
Proof.
  intros Haudio Hout. split; [|split; [|split]].
  - split.
    + intros [wb Hbody]. rewrite (JOB_START_run _ _ _ _ _ Haudio Hout Hbody). eauto.
    + intros [w' Hrun].
      destruct (job_body E req (job_id_of E w) (next_runner w) (after_prologue E w))
        as [c wb] eqn:Hbody.
      rewrite (JOB_START_run _ _ _ _ _ Haudio Hout Hbody) in Hrun.
      destruct c as [resp|e0]; [discriminate|]. inversion Hrun; subst. eauto.
  - intros w' Hrun.
    apply JOB_START_spec in Hrun as (_ & Hreg & evs & Hno & Hev); [|done..].
    erewrite emitted_app by exact Hev. split; [|split].
    + rewrite !job_errors_app, (job_errors_none _ evs) by done.
      unfold job_errors. simpl. by rewrite bool_decide_eq_true_2.
    + rewrite !app_assoc. apply last_snoc.
    + rewrite Hreg. apply lookup_delete_eq.
  - done.
  - split; [by intros <-|by intros ->].
Qed.

Lemma failed_run_reports_wrapped_error_witness :
  let e := makeErr WHISPER_FAILED "whisper exited with code 1"
             (Some "stderr: failed to load model") None in
  ∃ w', JOB_START (P:=posix_path) env_rejecting req_ass empty_world = (Thrown e, w')
        ∧ job_errors "uuid-0" (emitted empty_world w') = [wrapped e]
        ∧ structured (wrapped e) ≠ structured e.
Proof.
  intros e.
  destruct (failed_run_reports_wrapped_error (P:=posix_path) env_rejecting req_ass
              empty_world e) as (Hiff & Hevent & _ & Hsame);
    [discriminate|discriminate|].
  destruct Hiff as [Hthrows _].
  destruct Hthrows as [w' Hrun].
  { eexists. vm_compute. reflexivity. }
  exists w'. split; [exact Hrun|]. split.
  - apply (Hevent w' Hrun).
  - intros Heq. apply Hsame in Heq. discriminate Heq.
Defined.

Lemma job_body_normal {P : PathApi} (E : Env) req jobId r w resp w' :
  job_body E req jobId r w = (Normal resp, w') →
  ∃ res fs1 fs2 content srt_text preview,
    whisper_run E (run_params req) (files w) = inr (res, fs1)
    ∧ match format req with
      | srt => fs2 = fs1
      | ass => convertSrtFileToAss E (srtPath res) (replace_srt_ext (srtPath res)) fs1
               = inr fs2
      end
    ∧ fs2 !! (match format req with
              | srt => srtPath res
              | ass => replace_srt_ext (srtPath res)
              end) = Some content
    ∧ files w' = <[outputPath req := content]> fs2
    ∧ files w' !! srtPath res = Some srt_text
    ∧ parseSrt E srt_text = inr preview
    ∧ catalog w' = catalog w ++ [created_record E req (rng w)]
    ∧ rng w' = S (rng w)
    ∧ events w'
      = events w
        ++ [JobProgress jobId TRANSCRIBING "Transcrevendo áudio (whisper)...";
            JobProgress jobId CONVERTING "Preparando legenda...";
            JobProgress jobId SAVING "Salvando arquivo...";
            GeneratedChanged CREATED;
            JobDone jobId (ref_of (created_record E req (rng w))) preview;
            JobProgress jobId DONE "Concluído."].
Proof.
  unfold job_body, created_record, ref_of. unfold_ops. unfold_m. simpl. intros Hrun.
  repeat (first [progress (unfold_m; simpl in * ) | case_match]; simplify_eq/=).
  all: eexists _, _, _, _, _, _.
  all: split; [reflexivity|]; split; [first [reflexivity|eassumption]|].
  all: split; [eassumption|]; split; [reflexivity|]; split; [eassumption|].
  all: split; [eassumption|]; split; [reflexivity|]; split; [reflexivity|].
  all: rewrite <- ?app_assoc; reflexivity.
Qed.

Lemma job_body_thrown {P : PathApi} (E : Env) req jobId r w e w' :
  job_body E req jobId r w = (Thrown e, w') →
  ∃ evs,
    events w' = events w ++ evs
    ∧ ((catalog w' = catalog w ∧ existsb is_created evs = false)
       ∨ (catalog w' = catalog w ++ [created_record E req (rng w)]
          ∧ existsb is_created evs = true)).
Proof.
  unfold job_body, created_record. unfold_ops. unfold_m. simpl. intros Hrun.
  repeat (first [progress (unfold_m; simpl in * ) | case_match]; simplify_eq/=).
  all: rewrite <- ?app_assoc; eexists; (split; [reflexivity|]).
  all: first [left; split; reflexivity | right; split; reflexivity].
Qed.

(** X8. After a successful job the catalog is the old one with one
    record appended: its path is the requested output path, its file
    name the base name of that path, its format the requested one, and
    its language and model identifier are those of the request as given,
    not the defaults handed to the runner.  The output file exists, and
    two UUIDs were drawn, the first for the job, the second for the
    record. *)
Theorem start_success_appends_record {P : PathApi} (E : Env) (req : StartJobRequest)
    (w w' : World) (resp : StartJobResponse) :
  JOB_START E req w = (Normal resp, w') →
  catalog w' = catalog w ++ [created_record E req (S (rng w))]
  ∧ existsSync (files w') (outputPath req) = true
  ∧ rng w' = S (S (rng w))
  ∧ sj_jobId resp = uuid_at E (rng w).
Proof.
  intros Hrun. destruct (JOB_START_validated _ _ _ _ _ Hrun) as [Haudio Hout].
  destruct (job_body E req (job_id_of E w) (next_runner w) (after_prologue E w))
    as [c wb] eqn:Hbody.
  rewrite (JOB_START_run _ _ _ _ _ Haudio Hout Hbody) in Hrun.
  destruct c as [resp0|e]; [|discriminate]. inversion Hrun; subst; clear Hrun.
  pose proof Hbody as Hbody0.
  apply job_body_normal in Hbody
    as (res & fs1 & fs2 & content & srt_text & pv & _ & _ & _ & Hfiles & _ & _ & Hcat
        & Hrng & _).
  simpl in *. split; [exact Hcat|]. split.
  { rewrite Hfiles. unfold existsSync. apply bool_decide_eq_true_2.
    rewrite lookup_insert_eq. eauto. }
  split; [exact Hrng|].
  revert Hbody0. unfold job_body. unfold_ops. unfold_m. simpl. intros Hb.
  repeat (first [progress (unfold_m; simpl in * ) | case_match]; simplify_eq/=); done.
Qed.

Lemma start_success_appends_record_witness :
  catalog (snd (JOB_START (P:=posix_path) env_ok req_bare empty_world))
  = [ {| gf_id := "uuid-1"; gf_path := "/home/u/talk.srt"; gf_fileName := "talk.srt";
         gf_format := srt; gf_language := None; gf_modelId := Some "";
         gf_createdAtISO := "2024-05-01T12:00:00.000Z"; gf_exists := true |} ].
Proof.
  destruct (start_success_appends_record (P:=posix_path) env_ok req_bare empty_world
              (snd (JOB_START (P:=posix_path) env_ok req_bare empty_world))
              {| sj_jobId := "uuid-0" |}) as [Hcat _].
  - vm_compute. reflexivity.
  - rewrite Hcat. reflexivity.
Defined.

(** X9. The events of a successful run, in order: the PREPARING,
    TRANSCRIBING, CONVERTING and SAVING announcements, the CREATED
    notification, the done event, the DONE announcement.  The done event
    names the record just catalogued, and its preview is the parse of the
    engine's subtitle file as it is on disk at the end, for [ass]
    requests as well. *)
Theorem start_success_events {P : PathApi} (E : Env) (req : StartJobRequest)
    (w w' : World) (resp : StartJobResponse) :
  JOB_START E req w = (Normal resp, w') →
  ∃ res fs1 srt_text preview,
    whisper_run E (run_params req) (files w) = inr (res, fs1)
    ∧ files w' !! srtPath res = Some srt_text
    ∧ parseSrt E srt_text = inr preview
    ∧ emitted w w'
      = [JobProgress (job_id_of E w) PREPARING "Validando arquivos e modelo...";
         JobProgress (job_id_of E w) TRANSCRIBING "Transcrevendo áudio (whisper)...";
         JobProgress (job_id_of E w) CONVERTING "Preparando legenda...";
         JobProgress (job_id_of E w) SAVING "Salvando arquivo...";
         GeneratedChanged CREATED;
         JobDone (job_id_of E w) (ref_of (created_record E req (S (rng w)))) preview;
         JobProgress (job_id_of E w) DONE "Concluído."].
Proof.
  intros Hrun. destruct (JOB_START_validated _ _ _ _ _ Hrun) as [Haudio Hout].
  destruct (job_body E req (job_id_of E w) (next_runner w) (after_prologue E w))
    as [c wb] eqn:Hbody.
  rewrite (JOB_START_run _ _ _ _ _ Haudio Hout Hbody) in Hrun.
  destruct c as [resp0|e]; [|discriminate]. inversion Hrun; subst; clear Hrun.
  apply job_body_normal in Hbody
    as (res & fs1 & fs2 & content & srt_text & pv & Hengine & _ & _ & _ & Hsrt & Hparse
        & _ & _ & Hev).
  simpl in *. exists res, fs1, srt_text, pv.
  split; [exact Hengine|]. split; [exact Hsrt|]. split; [exact Hparse|].
  apply emitted_app. simpl. rewrite Hev, <- app_assoc. done.
Qed.

Lemma start_success_events_witness :
  ∃ preview,
    last (emitted empty_world (snd (JOB_START (P:=posix_path) env_ok req_ass empty_world)))
    = Some (JobProgress "uuid-0" DONE "Concluído.")
    ∧ parseSrt env_ok "1 Hello 2 World" = inr preview.
Proof.
  destruct (start_success_events (P:=posix_path) env_ok req_ass empty_world
              (snd (JOB_START (P:=posix_path) env_ok req_ass empty_world))
              {| sj_jobId := "uuid-0" |})
    as (res & fs1 & srt_text & preview & _ & _ & _ & Hev).
  - vm_compute. reflexivity.
  - exists two_cues. rewrite Hev. split; reflexivity.
Defined.

(** X10. What a successful job leaves at the output path: for an [srt]
    request a copy of the file the engine produced, for an [ass] request
    a copy of what the converter wrote at the engine's path with its
    final [.srt] replaced by [.ass].  The handler itself changes no other
    path. *)
Theorem start_output_content {P : PathApi} (E : Env) (req : StartJobRequest)
    (w w' : World) (resp : StartJobResponse) :
  JOB_START E req w = (Normal resp, w') →
  ∃ res fs1 fs2 content,
    whisper_run E (run_params req) (files w) = inr (res, fs1)
    ∧ files w' !! outputPath req = Some content
    ∧ (format req = srt → fs2 = fs1 ∧ fs1 !! srtPath res = Some content)
    ∧ (format req = ass →
       convertSrtFileToAss E (srtPath res) (replace_srt_ext (srtPath res)) fs1 = inr fs2
       ∧ fs2 !! replace_srt_ext (srtPath res) = Some content)
    ∧ (∀ p, p ≠ outputPath req → files w' !! p = fs2 !! p).
Proof.
  intros Hrun. destruct (JOB_START_validated _ _ _ _ _ Hrun) as [Haudio Hout].
  destruct (job_body E req (job_id_of E w) (next_runner w) (after_prologue E w))
    as [c wb] eqn:Hbody.
  rewrite (JOB_START_run _ _ _ _ _ Haudio Hout Hbody) in Hrun.
  destruct c as [resp0|e]; [|discriminate]. inversion Hrun; subst; clear Hrun.
  apply job_body_normal in Hbody
    as (res & fs1 & fs2 & content & srt_text & pv & Hengine & Hconv & Hcontent & Hfiles
        & _).
  simpl in *. exists res, fs1, fs2, content. split; [exact Hengine|].
  rewrite Hfiles. split; [apply lookup_insert_eq|]. split; [|split].
  - intros Hfmt. rewrite Hfmt in *. by subst.
  - intros Hfmt. rewrite Hfmt in *. done.
  - intros p Hp. by rewrite lookup_insert_ne.
Qed.

Lemma start_output_content_witness :
  files (snd (JOB_START (P:=posix_path) env_ok req_ass empty_world)) !! "/home/u/talk.ass"
  = Some "[Script Info] 1 Hello 2 World".
Proof.
  destruct (start_output_content (P:=posix_path) env_ok req_ass empty_world
              (snd (JOB_START (P:=posix_path) env_ok req_ass empty_world))
              {| sj_jobId := "uuid-0" |})
    as (res & fs1 & fs2 & content & Hengine & _ & _ & _ & _).
  - vm_compute. reflexivity.
  - vm_compute. reflexivity.
Defined.

(** X11. A call of JOB_START, whatever its outcome, leaves the
    registration of every other job as it was; and once the request has
    passed validation, no runner is left registered for its own job. *)
Theorem start_registry_frame {P : PathApi} (E : Env) (req : StartJobRequest) (w : World) :
  (∀ j, j ≠ job_id_of E w →
        runners (snd (JOB_START E req w)) !! j = runners w !! j)
  ∧ (audioPath req ≠ "" → outputPath req ≠ "" →
     runners (snd (JOB_START E req w)) !! job_id_of E w = None).
Proof.
  assert (Hval : audioPath req ≠ "" → outputPath req ≠ "" →
                 runners (snd (JOB_START E req w)) = delete (job_id_of E w) (runners w)).
  { intros Haudio Hout.
    destruct (JOB_START E req w) as [c w'] eqn:Hrun.
    apply JOB_START_spec in Hrun as (_ & Hreg & _); done. }
  split.
  - intros j Hj.
    destruct (decide (audioPath req = "")) as [Haudio|Haudio].
    { unfold JOB_START, randomUUID. unfold_m. simpl. rewrite Haudio. done. }
    destruct (decide (outputPath req = "")) as [Hout|Hout].
    { unfold JOB_START, randomUUID. unfold_m. simpl.
      rewrite bool_decide_eq_false_2 by done. rewrite Hout. done. }
    rewrite Hval by done. by apply lookup_delete_ne.
  - intros Haudio Hout. rewrite Hval by done. apply lookup_delete_eq.
Qed.

Lemma start_registry_frame_witness :
  runners (snd (JOB_START (P:=posix_path) env_failing req_srt world_running)) !! "job-7"
  = Some 0
  ∧ runners (snd (JOB_START (P:=posix_path) env_failing req_srt world_running)) !! "uuid-1"
    = None.
Proof.
  destruct (start_registry_frame (P:=posix_path) env_failing req_srt world_running)
    as [Hother Hown].
  split.
  - rewrite (Hother "job-7"); [reflexivity|discriminate].
  - apply Hown; discriminate.
Defined.

(** X12. When the engine fails, the call fails with the engine's error
    and nothing was stored or written: catalog and files are as before,
    and the events sent are PREPARING, TRANSCRIBING and the error event. *)
Theorem engine_failure_rolls_nothing {P : PathApi} (E : Env) (req : StartJobRequest)
    (w : World) (e : JsError) :
  audioPath req ≠ "" → outputPath req ≠ "" →
  whisper_run E (run_params req) (files w) = inl e →
  ∃ w', JOB_START E req w = (Thrown e, w')
        ∧ catalog w' = catalog w ∧ files w' = files w
        ∧ emitted w w'
          = [JobProgress (job_id_of E w) PREPARING "Validando arquivos e modelo...";
             JobProgress (job_id_of E w) TRANSCRIBING "Transcrevendo áudio (whisper)...";
             JobError (job_id_of E w) (wrapped e)]
        ∧ runner_calls w' = runner_calls w ++ [CallRun (next_runner w) (run_params req)].
Proof.
  intros Haudio Hout Hengine.
  unfold JOB_START, job_body, job_id_of. unfold_ops. unfold_m. simpl.
  rewrite !bool_decide_eq_false_2 by done. simpl. rewrite Hengine. simpl.
  eexists. split; [reflexivity|]. simpl. split; [done|]. split; [done|].
  split; [|done]. apply emitted_app. simpl. rewrite <- !app_assoc. done.
Qed.

Lemma engine_failure_rolls_nothing_witness :
  ∃ w', JOB_START (P:=posix_path) env_failing req_ass world_XY
        = (Thrown (node_error "whisper exited with code 1"), w')
        ∧ catalog w' = catalog world_XY ∧ files w' = files world_XY.
Proof.
  destruct (engine_failure_rolls_nothing (P:=posix_path) env_failing req_ass world_XY
              (node_error "whisper exited with code 1"))
    as (w' & Hrun & Hcat & Hfiles & _); [discriminate|discriminate|reflexivity|].
  exists w'. split; [exact Hrun|]. split; [exact Hcat|exact Hfiles].
Defined.

Lemma existsb_created_app evs1 evs2 :
  existsb is_created (evs1 ++ evs2) = existsb is_created evs1 || existsb is_created evs2.
Proof. apply existsb_app. Qed.

Lemma JOB_START_invalid {P : PathApi} (E : Env) req w :
  audioPath req = "" ∨ outputPath req = "" →
  snd (JOB_START E req w) = draw w.
Proof.
  intros Hbad. unfold JOB_START, randomUUID. unfold_m. simpl.
  destruct (bool_decide (audioPath req = "")) eqn:Haudio; simpl; [done|].
  destruct Hbad as [Hbad|Hbad].
  - apply bool_decide_eq_false in Haudio. done.
  - rewrite Hbad. done.
Qed.

Lemma JOB_START_catalog {P : PathApi} (E : Env) (req : StartJobRequest) (w : World) :
  (catalog (snd (JOB_START E req w)) = catalog w
   ∧ existsb is_created (emitted w (snd (JOB_START E req w))) = false)
  ∨ (catalog (snd (JOB_START E req w)) = catalog w ++ [created_record E req (S (rng w))]
     ∧ existsb is_created (emitted w (snd (JOB_START E req w))) = true).
Proof.
  destruct (decide (audioPath req = "")) as [Haudio|Haudio].
  { left. rewrite JOB_START_invalid by auto. unfold emitted. simpl.
    by rewrite drop_all. }
  destruct (decide (outputPath req = "")) as [Hout|Hout].
  { left. rewrite JOB_START_invalid by auto. unfold emitted. simpl.
    by rewrite drop_all. }
  destruct (job_body E req (job_id_of E w) (next_runner w) (after_prologue E w))
    as [c wb] eqn:Hbody.
  rewrite (JOB_START_run _ _ _ _ _ Haudio Hout Hbody).
  destruct c as [resp|e]; simpl.
  - right. apply job_body_normal in Hbody
      as (res & fs1 & fs2 & content & srt_text & pv & _ & _ & _ & _ & _ & _ & Hcat & _
          & Hev).
    simpl in *. split; [exact Hcat|].
    erewrite emitted_app; [|simpl; rewrite Hev, <- app_assoc; reflexivity]. done.
  - apply job_body_thrown in Hbody as (evs & Hev & Hcase). simpl in *.
    assert (Hem : emitted w
                    (set_runners (delete (job_id_of E w) (runners wb))
                       (emit (JobError (job_id_of E w) (wrapped e)) wb))
                  = JobProgress (job_id_of E w) PREPARING "Validando arquivos e modelo..."
                    :: evs ++ [JobError (job_id_of E w) (wrapped e)]).
    { apply emitted_app. simpl. rewrite Hev, <- !app_assoc. done. }
    rewrite Hem. cbn [existsb is_created orb]. rewrite existsb_created_app. simpl.
    rewrite orb_false_r.
    destruct Hcase as [[Hcat Hno]|[Hcat Hyes]]; [left|right]; done.
Qed.

(** X13. The CREATED notification and the catalog go together, also in
    calls that fail: if CREATED was sent during the call, the new record
    is in the catalog (a failure after that point, while reading back or
    parsing the engine's file, does not take it out again); if it was
    not, the catalog is unchanged. *)
Theorem start_created_iff_appended {P : PathApi} (E : Env) (req : StartJobRequest)
    (w : World) :
  let w' := snd (JOB_START E req w) in
  (catalog w' = catalog w ∧ existsb is_created (emitted w w') = false)
  ∨ (catalog w' = catalog w ++ [created_record E req (S (rng w))]
     ∧ existsb is_created (emitted w w') = true).
Proof. apply JOB_START_catalog. Qed.

(** A call that fails after storing the record: the parser throws. *)
Example failed_job_keeps_record :
  let run := JOB_START (P:=posix_path) env_parse_fails req_srt empty_world in
  fst run = Thrown (node_error "bad subtitle file")
  ∧ catalog (snd run) = [created_record (P:=posix_path) env_parse_fails req_srt 1]
  ∧ existsSync (files (snd run)) "/home/u/talk.srt" = true.
Proof. vm_compute. repeat split. Qed.

Lemma replace_first_Forall (Q : GeneratedFileDTO → Prop) id f (l : list GeneratedFileDTO) :
  (∀ x, Q (f x)) → Forall Q l → Forall Q (replace_first id f l).
Proof.
  intros Hf. induction 1 as [|x l Hx Hl IH]; simpl; [constructor|].
  destruct (has_id id x); constructor; auto.
Qed.

Lemma filter_Forall (Q : GeneratedFileDTO → Prop) f (l : list GeneratedFileDTO) :
  Forall Q l → Forall Q (List.filter f l).
Proof.
  induction 1 as [|x l Hx Hl IH]; simpl; [constructor|].
  destruct (f x); [constructor|]; auto.
Qed.

Lemma rename_catalog {P : PathApi} (E : Env) req w :
  catalog (snd (GENERATED_RENAME E req w)) = catalog w
  ∨ ∃ found finalPath,
      catalog (snd (GENERATED_RENAME E req w))
      = replace_first (rn_id req) (λ _, renamed found finalPath) (catalog w).
Proof.
  unfold GENERATED_RENAME. unfold_ops. unfold_m. simpl.
  repeat (first [progress (unfold_m; simpl in * ) | case_match]; simplify_eq/=);
    eauto.
Qed.

Lemma delete_catalog (E : Env) req w :
  catalog (snd (GENERATED_DELETE E req w)) = catalog w
  ∨ catalog (snd (GENERATED_DELETE E req w))
    = List.filter (λ x, negb (has_id (del_id req) x)) (catalog w).
Proof.
  unfold GENERATED_DELETE. unfold_ops. unfold_m. simpl.
  repeat (first [progress (unfold_m; simpl in * ) | case_match]; simplify_eq/=);
    eauto.
Qed.

Lemma cancel_catalog jobId w : catalog (snd (JOB_CANCEL jobId w)) = catalog w.
Proof.
  unfold JOB_CANCEL, runners_get, runner_cancel, runners_delete. unfold_m. cbv beta.
  by destruct (runners w !! jobId).
Qed.

Lemma step_keeps_names {P : PathApi} (ec : Env * Call) (w : World) :
  Forall name_matches_path (catalog w) →
  Forall name_matches_path (catalog (step ec w)).
Proof.
  intros Hwf. destruct ec as [E [req|req|req|jobId]]; simpl.
  - destruct (JOB_START_catalog E req w) as [[Hcat _]|[Hcat _]]; rewrite Hcat;
      [done|]. apply Forall_app. split; [done|]. by repeat constructor.
  - destruct (rename_catalog E req w) as [Hcat|(found & finalPath & Hcat)];
      rewrite Hcat; [done|]. apply replace_first_Forall; [|done]. intros _. done.
  - destruct (delete_catalog E req w) as [Hcat|Hcat]; rewrite Hcat; [done|].
    by apply filter_Forall.
  - by rewrite cancel_catalog.
Qed.

(** X14. Path and file name stay consistent: whatever sequence of
    start, rename, delete and cancel calls is run from a catalog in which
    every record's file name is the base name of its path, in whatever
    environments and with whatever outcomes, the same holds of every
    record of the resulting catalog. *)
Theorem handlers_keep_records_well_formed {P : PathApi} (calls : list (Env * Call))
    (w : World) :
  Forall name_matches_path (catalog w) →
  Forall name_matches_path (catalog (run_calls calls w)).
Proof.
  revert w. induction calls as [|ec calls IH]; intros w Hwf; [done|].
  simpl. apply IH. by apply step_keeps_names.
Qed.

Lemma handlers_keep_records_well_formed_witness :
  Forall (name_matches_path (P:=posix_path))
    (catalog (run_calls (P:=posix_path)
                [(env_ok, CallStart req_ass);
                 (env_ok, CallRename {| rn_id := "uuid-1"; newBaseName := "final cut" |});
                 (env_parse_fails, CallStart req_srt);
                 (env_ok, CallDelete {| del_id := "uuid-3" |})]
                empty_world)).
Proof.
  apply (handlers_keep_records_well_formed (P:=posix_path)). constructor.
Defined.

(* ================================================================== *)
(** ** Opening and revealing *)
(* ================================================================== *)

(** X15. Opening checks the disk, revealing does not: for a catalogued
    record whose file is gone, GENERATED_OPEN fails with FILE_NOT_FOUND
    and makes no shell call, while GENERATED_SHOW_IN_FOLDER succeeds and
    hands the stale path to the shell.  Neither changes the world. *)
Theorem open_checks_disk_reveal_does_not (id : string) (shell : list ShellCall)
    (w : World) (found : GeneratedFileDTO) :
  List.find (has_id id) (catalog w) = Some found →
  existsSync (files w) (gf_path found) = false →
  GENERATED_OPEN {| open_id := id |} shell w
  = (Thrown (makeErr FILE_NOT_FOUND "Arquivo não existe mais no disco." None None), w)
  ∧ GENERATED_SHOW_IN_FOLDER {| show_id := id |} shell w
    = (Normal (shell ++ [ShowItemInFolder (gf_path found)]), w).
Proof.
  intros Hfind Hgone. unfold GENERATED_OPEN, GENERATED_SHOW_IN_FOLDER, store_list.
  unfold_m. simpl. rewrite Hfind. simpl. by rewrite Hgone.
Qed.

Lemma open_checks_disk_reveal_does_not_witness :
  GENERATED_OPEN {| open_id := "id-1" |} [] world_X_gone
  = (Thrown (makeErr FILE_NOT_FOUND "Arquivo não existe mais no disco." None None),
     world_X_gone)
  ∧ GENERATED_SHOW_IN_FOLDER {| show_id := "id-1" |} [] world_X_gone
    = (Normal [ShowItemInFolder "/out/X.srt"], world_X_gone).
Proof.
  apply (open_checks_disk_reveal_does_not "id-1" [] world_X_gone record_X); reflexivity.
Defined.

(** X16. Opening and revealing never change the world, and they reach
    the shell only for a catalogued record: a call that succeeds made
    exactly one shell call, for the path of the first record with the
    identifier (for opening, a path that exists); a call that fails made
    none and failed with FILE_NOT_FOUND. *)
Theorem shell_handlers_outcomes (id : string) (shell : list ShellCall) (w : World) :
  (∃ c, GENERATED_OPEN {| open_id := id |} shell w = (c, w)
        ∧ match c with
          | Normal shell' =>
              ∃ found, List.find (has_id id) (catalog w) = Some found
                       ∧ existsSync (files w) (gf_path found) = true
                       ∧ shell' = shell ++ [OpenPath (gf_path found)]
          | Thrown e => code <$> appError e = Some FILE_NOT_FOUND
          end)
  ∧ (∃ c, GENERATED_SHOW_IN_FOLDER {| show_id := id |} shell w = (c, w)
          ∧ match c with
            | Normal shell' =>
                ∃ found, List.find (has_id id) (catalog w) = Some found
                         ∧ shell' = shell ++ [ShowItemInFolder (gf_path found)]
            | Thrown e => code <$> appError e = Some FILE_NOT_FOUND
            end).
Proof.
  unfold GENERATED_OPEN, GENERATED_SHOW_IN_FOLDER, store_list. unfold_m. simpl.
  destruct (List.find (has_id id) (catalog w)) as [found|]; simpl.
  - split.
    + destruct (existsSync (files w) (gf_path found)) eqn:Hthere; simpl;
        eexists; (split; [reflexivity|]); simpl; eauto.
    + eexists. split; [reflexivity|]. simpl. eauto.
  - split; eexists; (split; [reflexivity|]); done.
Qed.

(* ================================================================== *)
(** ** File URLs *)
(* ================================================================== *)

Lemma chars_app (s1 s2 : string) :
  list_ascii_of_string (s1 +:+ s2) = list_ascii_of_string s1 ++ list_ascii_of_string s2.
Proof. induction s1 as [|c s1 IH]; simpl; [done|]. by rewrite IH. Qed.

Lemma str_app (l1 l2 : list ascii) :
  string_of_list_ascii (l1 ++ l2) = string_of_list_ascii l1 +:+ string_of_list_ascii l2.
Proof. induction l1 as [|c l1 IH]; simpl; [done|]. by rewrite IH. Qed.

Lemma str_inj (l1 l2 : list ascii) :
  string_of_list_ascii l1 = string_of_list_ascii l2 → l1 = l2.
Proof.
  intros Heq. apply (f_equal list_ascii_of_string) in Heq.
  by rewrite !list_ascii_of_string_of_list_ascii in Heq.
Qed.

Lemma chars_inj (s1 s2 : string) :
  list_ascii_of_string s1 = list_ascii_of_string s2 → s1 = s2.
Proof.
  intros Heq. apply (f_equal string_of_list_ascii) in Heq.
  by rewrite !string_of_list_ascii_of_string in Heq.
Qed.

Lemma unsextet_sextet n : n < 64 → Base64Url.unsextet (Base64Url.sextet n) = n.
Proof.
  intros Hn.
  assert (Hall : forallb (λ k, Base64Url.unsextet (Base64Url.sextet k) =? k) (seq 0 64)
                 = true) by (vm_compute; reflexivity).
  rewrite forallb_forall in Hall. apply Nat.eqb_eq, Hall, in_seq. lia.
Qed.

Lemma sextet_in_alphabet n : n < 64 → In (Base64Url.sextet n) Base64Url.alphabet.
Proof. intros Hn. apply nth_In. exact Hn. Qed.

Lemma decode_encode_bytes (l : list nat) :
  Forall (λ b, b < 256) l →
  Base64Url.decode_sextets (map Base64Url.unsextet (Base64Url.encode_bytes l)) = l.
Proof.
  remember (length l) as n eqn:Hn. revert l Hn.
  induction n as [n IH] using lt_wf_ind. intros l Hn Hl.
  destruct l as [|a [|b [|c rest]]].
  - done.
  - apply Forall_cons_1 in Hl as [Ha _]. cbn [Base64Url.encode_bytes Base64Url.decode_sextets map].
    rewrite !unsextet_sextet by (zify; Z.to_euclidean_division_equations; lia).
    f_equal. zify; Z.to_euclidean_division_equations; lia.
  - apply Forall_cons_1 in Hl as [Ha Hl]. apply Forall_cons_1 in Hl as [Hb _]. cbn [Base64Url.encode_bytes Base64Url.decode_sextets map].
    rewrite !unsextet_sextet by (zify; Z.to_euclidean_division_equations; lia).
    f_equal; [|f_equal]; zify; Z.to_euclidean_division_equations; lia.
  - apply Forall_cons_1 in Hl as [Ha Hl]. apply Forall_cons_1 in Hl as [Hb Hl].
    apply Forall_cons_1 in Hl as [Hc Hl]. cbn [Base64Url.encode_bytes Base64Url.decode_sextets map].
    rewrite !unsextet_sextet by (zify; Z.to_euclidean_division_equations; lia).
    rewrite (IH (length rest)); [|subst n; simpl; lia|done|done].
    f_equal; [|f_equal; [|f_equal]]; zify; Z.to_euclidean_division_equations; lia.
Qed.

Lemma encode_bytes_alphabet (l : list nat) :
  Forall (λ b, b < 256) l →
  Forall (λ c, In c Base64Url.alphabet) (Base64Url.encode_bytes l).
Proof.
  remember (length l) as n eqn:Hn. revert l Hn.
  induction n as [n IH] using lt_wf_ind. intros l Hn Hl.
  destruct l as [|a [|b [|c rest]]]; cbn [Base64Url.encode_bytes Base64Url.decode_sextets map].
  - constructor.
  - apply Forall_cons_1 in Hl as [Ha _].
    repeat (apply Forall_cons; split;
            [apply sextet_in_alphabet; zify; Z.to_euclidean_division_equations; lia|]).
    apply Forall_nil_2.
  - apply Forall_cons_1 in Hl as [Ha Hl]. apply Forall_cons_1 in Hl as [Hb _].
    repeat (apply Forall_cons; split;
            [apply sextet_in_alphabet; zify; Z.to_euclidean_division_equations; lia|]).
    apply Forall_nil_2.
  - apply Forall_cons_1 in Hl as [Ha Hl]. apply Forall_cons_1 in Hl as [Hb Hl].
    apply Forall_cons_1 in Hl as [Hc Hl].
    repeat (apply Forall_cons; split;
            [apply sextet_in_alphabet; zify; Z.to_euclidean_division_equations; lia|]).
    apply (IH (length rest)); [subst n; simpl; lia|done|done].
Qed.

Lemma string_bytes_bounded (s : string) :
  Forall (λ b, b < 256) (map nat_of_ascii (list_ascii_of_string s)).
Proof.
  induction (list_ascii_of_string s) as [|c l IH]; simpl; [apply Forall_nil_2|].
  apply Forall_cons. split; [apply nat_ascii_bounded|exact IH].
Qed.

Lemma encode_inj (s1 s2 : string) :
  Base64Url.encode s1 = Base64Url.encode s2 → s1 = s2.
Proof.
  unfold Base64Url.encode. intros Heq%str_inj.
  apply (f_equal (λ l, Base64Url.decode_sextets (map Base64Url.unsextet l))) in Heq.
  rewrite !decode_encode_bytes in Heq by apply string_bytes_bounded.
  apply chars_inj.
  assert (Hinj : ∀ l1 l2 : list ascii, map nat_of_ascii l1 = map nat_of_ascii l2 → l1 = l2).
  { induction l1 as [|x l1 IH1]; intros [|y l2] Hm; try done.
    simpl in Hm. inversion Hm as [[Hxy Hrest]].
    apply (f_equal ascii_of_nat) in Hxy. rewrite !ascii_nat_embedding in Hxy.
    f_equal; [done|]. by apply IH1. }
  by apply Hinj.
Qed.

Example base64url_known_values :
  Base64Url.encode "Man" = "TWFu" ∧ Base64Url.encode "Ma" = "TWE"
  ∧ Base64Url.encode "M" = "TQ" ∧ Base64Url.encode "" = ""
  ∧ Base64Url.encode "/music/Talk.MP3" = "L211c2ljL1RhbGsuTVAz"
  ∧ Base64Url.encode "a?>b~" = "YT8-Yn4".
Proof. repeat split. Qed.

Lemma GET_FILE_URL_cases {P : PathApi} (isFile : string → JsError + bool)
    (absPath : option string) (w : World) :
  ∃ r,
    GET_FILE_URL isFile absPath w = (Normal r, w)
    ∧ ∀ url,
        r = UrlOk url
        ↔ ∃ p, absPath = Some p ∧ p ≠ ""
               ∧ existsSync (files w) p = true
               ∧ isFile p = inr true
               ∧ toLowerCase (extname p) ∈ allowed_audio_ext
               ∧ url = "appfile://audio?path=" +:+ Base64Url.encode p.
Proof.
  unfold GET_FILE_URL. unfold_m. simpl.
  destruct absPath as [p|]; simpl.
  2:{ eexists. split; [reflexivity|]. intros url. split; [done|].
      by intros (p & Hp & _). }
  destruct (bool_decide (p = "")) eqn:Hempty; simpl.
  { eexists. split; [reflexivity|]. intros url. split; [done|].
    intros (p' & [= <-] & Hne & _). by apply bool_decide_eq_true in Hempty. }
  apply bool_decide_eq_false in Hempty.
  destruct (existsSync (files w) p) eqn:Hthere; simpl.
  2:{ eexists. split; [reflexivity|]. intros url. split; [done|].
      intros (p' & [= <-] & _ & Hex & _). congruence. }
  destruct (isFile p) as [e|[|]] eqn:Hstat; simpl.
  { eexists. split; [reflexivity|]. intros url. split; [done|].
    intros (p' & [= <-] & _ & _ & Hf & _). congruence. }
  2:{ eexists. split; [reflexivity|]. intros url. split; [done|].
      intros (p' & [= <-] & _ & _ & Hf & _). congruence. }
  destruct (bool_decide (toLowerCase (extname p) ∈ allowed_audio_ext)) eqn:Hext; simpl.
  - apply bool_decide_eq_true in Hext.
    eexists. split; [reflexivity|]. intros url. split.
    + intros [= <-]. exists p. done.
    + intros (p' & [= <-] & _ & _ & _ & _ & ->). done.
  - apply bool_decide_eq_false in Hext.
    eexists. split; [reflexivity|]. intros url. split; [done|].
    intros (p' & [= <-] & _ & _ & _ & Hin & _). done.
Qed.

(** X17. GET_FILE_URL never throws and never changes the world.  It
    answers with a URL exactly when the argument is a non-empty string,
    the path exists, it is a regular file and its extension, lower-cased,
    is one of the six audio extensions; the URL is then
    [appfile://audio?path=] followed by the base64url form of the path.
    Every other case, a throwing [statSync] included, is a failure
    answer. *)
Theorem get_file_url_outcome {P : PathApi} (isFile : string → JsError + bool)
    (absPath : option string) (w : World) :
  ∃ r,
    GET_FILE_URL isFile absPath w = (Normal r, w)
    ∧ ∀ url,
        r = UrlOk url
        ↔ ∃ p, absPath = Some p ∧ p ≠ ""
               ∧ existsSync (files w) p = true
               ∧ isFile p = inr true
               ∧ toLowerCase (extname p) ∈ allowed_audio_ext
               ∧ url = "appfile://audio?path=" +:+ Base64Url.encode p.
Proof. apply GET_FILE_URL_cases. Qed.

Lemma get_file_url_outcome_witness :
  GET_FILE_URL (P:=posix_path) stat_music (Some "/music/Talk.MP3") world_music
  = (Normal (UrlOk "appfile://audio?path=L211c2ljL1RhbGsuTVAz"), world_music).
Proof.
  destruct (get_file_url_outcome (P:=posix_path) stat_music (Some "/music/Talk.MP3")
              world_music) as (r & Hrun & Hok).
  rewrite Hrun. f_equal. f_equal.
  apply (Hok "appfile://audio?path=L211c2ljL1RhbGsuTVAz").
  exists "/music/Talk.MP3".
  split; [reflexivity|]. split; [discriminate|]. split; [reflexivity|].
  split; [reflexivity|]. split; [vm_compute; constructor|vm_compute; reflexivity].
Defined.

Example get_file_url_rejections :
  fst (GET_FILE_URL (P:=posix_path) stat_music None world_music)
  = Normal (UrlFail "Caminho inválido.")
  ∧ fst (GET_FILE_URL (P:=posix_path) stat_music (Some "") world_music)
    = Normal (UrlFail "Caminho inválido.")
  ∧ fst (GET_FILE_URL (P:=posix_path) stat_music (Some "/music/none.mp3") world_music)
    = Normal (UrlFail "Arquivo não encontrado.")
  ∧ fst (GET_FILE_URL (P:=posix_path) stat_music (Some "/music") world_music)
    = Normal (UrlFail "O caminho não é um arquivo.")
  ∧ fst (GET_FILE_URL (P:=posix_path) (λ _, inl (node_error "EACCES"))
           (Some "/music/Talk.MP3") world_music)
    = Normal (UrlFail "EACCES")
  ∧ fst (GET_FILE_URL (P:=posix_path) (λ _, inl (node_error ""))
           (Some "/music/Talk.MP3") world_music)
    = Normal (UrlFail "Falha ao gerar URL.").
Proof. vm_compute. repeat split. Qed.

Lemma get_file_url_ok {P : PathApi} isFile p w url :
  fst (GET_FILE_URL isFile (Some p) w) = Normal (UrlOk url) →
  url = "appfile://audio?path=" +:+ Base64Url.encode p.
Proof.
  intros Hrun. destruct (GET_FILE_URL_cases isFile (Some p) w) as (r & Heq & Hok).
  rewrite Heq in Hrun. simpl in Hrun. inversion Hrun as [Hr].
  apply Hok in Hr as (p' & [= <-] & _ & _ & _ & _ & ->). done.
Qed.

(** X18. A file URL identifies its path and is safe to put in a URL: two
    paths, in whatever worlds, that get the same URL are the same path,
    and the part after [path=] is made of letters, digits, [-] and [_]
    only. *)
Theorem file_urls_identify_paths {P : PathApi} (isFile1 isFile2 : string → JsError + bool)
    (p1 p2 : string) (w1 w2 : World) (url : string) :
  fst (GET_FILE_URL isFile1 (Some p1) w1) = Normal (UrlOk url) →
  fst (GET_FILE_URL isFile2 (Some p2) w2) = Normal (UrlOk url) →
  p1 = p2
  ∧ ∃ encoded,
      url = "appfile://audio?path=" +:+ encoded
      ∧ Forall (λ c, In c Base64Url.alphabet) (list_ascii_of_string encoded).
Proof.
  intros H1%get_file_url_ok H2%get_file_url_ok. split.
  - rewrite H1 in H2. apply String.app_inj in H2. by apply encode_inj.
  - exists (Base64Url.encode p1). split; [done|].
    unfold Base64Url.encode. rewrite list_ascii_of_string_of_list_ascii.
    apply encode_bytes_alphabet, string_bytes_bounded.
Qed.

Lemma file_urls_identify_paths_witness :
  ∃ encoded,
    "appfile://audio?path=L211c2ljL1RhbGsuTVAz" = "appfile://audio?path=" +:+ encoded
    ∧ Forall (λ c, In c Base64Url.alphabet) (list_ascii_of_string encoded).
Proof.
  destruct (file_urls_identify_paths (P:=posix_path) stat_music always_file
              "/music/Talk.MP3" "/music/Talk.MP3" world_music world_music
              "appfile://audio?path=L211c2ljL1RhbGsuTVAz")
    as [_ Hsafe].
  - vm_compute. reflexivity.
  - vm_compute. reflexivity.
  - exact Hsafe.
Defined.

(** X19. Whatever the audio picker's filter lets through, the URL
    handler accepts, in any letter case: an existing regular file whose
    extension lower-cases to a dot followed by one of the picker's
    extensions, and whose path is not empty, gets a URL. *)
Theorem picked_audio_gets_url {P : PathApi} (isFile : string → JsError + bool)
    (p e : string) (w : World) :
  e ∈ picker_extensions →
  toLowerCase (extname p) = "." +:+ e →
  p ≠ "" →
  existsSync (files w) p = true →
  isFile p = inr true →
  GET_FILE_URL isFile (Some p) w
  = (Normal (UrlOk ("appfile://audio?path=" +:+ Base64Url.encode p)), w).
Proof.
  intros He Hext Hp Hthere Hfile.
  assert (Hallowed : toLowerCase (extname p) ∈ allowed_audio_ext).
  { rewrite Hext. unfold picker_extensions, allowed_audio_ext in *.
    repeat (apply elem_of_cons in He as [->|He]; [set_solver|]).
    by apply elem_of_nil in He. }
  unfold GET_FILE_URL. unfold_m. simpl.
  rewrite bool_decide_eq_false_2 by done. rewrite Hthere. simpl. rewrite Hfile. simpl.
  rewrite bool_decide_eq_true_2 by done. done.
Qed.

Lemma picked_audio_gets_url_witness :
  GET_FILE_URL (P:=posix_path) stat_music (Some "/music/Talk.MP3") world_music
  = (Normal (UrlOk ("appfile://audio?path=" +:+ Base64Url.encode "/music/Talk.MP3")),
     world_music).
Proof.
  apply (picked_audio_gets_url (P:=posix_path) stat_music "/music/Talk.MP3" "mp3"
           world_music); try reflexivity.
  - apply list_elem_of_here.
  - discriminate.
Defined.

(* ================================================================== *)
(** ** The temporary [.ass] path *)
(* ================================================================== *)

Lemma lower_ascii_cases (c x : ascii) :
  lower_ascii c = x →
  c = x ∨ (65 ≤ nat_of_ascii c ≤ 90 ∧ nat_of_ascii x = nat_of_ascii c + 32).
Proof.
  unfold lower_ascii. intros Hx.
  destruct ((65 <=? nat_of_ascii c) && (nat_of_ascii c <=? 90)) eqn:Hup; [|by left].
  right. apply andb_true_iff in Hup as [H1%Nat.leb_le H2%Nat.leb_le].
  split; [lia|]. rewrite <- Hx. rewrite nat_ascii_embedding; lia.
Qed.

Lemma lower_is_char (c : ascii) (lo up : ascii) :
  nat_of_ascii up + 32 = nat_of_ascii lo →
  nat_of_ascii lo < 65 ∨ 90 < nat_of_ascii lo →
  lower_ascii c = lo → c = lo ∨ c = up.
Proof.
  intros Hup Hlo Hc. destruct (lower_ascii_cases _ _ Hc) as [->|[Hrange Heq]]; [by left|].
  right. rewrite <- (ascii_nat_embedding c), <- (ascii_nat_embedding up).
  f_equal. lia.
Qed.

Lemma lower_is_dot (c : ascii) : lower_ascii c = "."%char → c = "."%char.
Proof.
  intros Hc. destruct (lower_ascii_cases _ _ Hc) as [->|[Hrange Heq]]; [done|].
  assert (Hdot : nat_of_ascii "."%char = 46) by reflexivity.
  rewrite Hdot in Heq. lia.
Qed.

Lemma lowered_srt_is_suffix (e : string) :
  toLowerCase e = ".srt" → is_srt_suffix (list_ascii_of_string e) = true.
Proof.
  unfold toLowerCase. intros He.
  apply (f_equal list_ascii_of_string) in He.
  rewrite list_ascii_of_string_of_list_ascii in He. simpl in He.
  destruct (list_ascii_of_string e) as [|c0 [|c1 [|c2 [|c3 [|c4 l]]]]]; try done.
  simpl in He. inversion He as [[H0 H1 H2 H3]].
  apply lower_is_dot in H0 as ->.
  apply (lower_is_char _ "s" "S") in H1;
    [|reflexivity|right; apply Nat.ltb_lt; reflexivity].
  apply (lower_is_char _ "r" "R") in H2;
    [|reflexivity|right; apply Nat.ltb_lt; reflexivity].
  apply (lower_is_char _ "t" "T") in H3;
    [|reflexivity|right; apply Nat.ltb_lt; reflexivity].
  destruct H1 as [-> | ->], H2 as [-> | ->], H3 as [-> | ->]; reflexivity.
Qed.

Lemma srt_suffix_length (l : list ascii) : is_srt_suffix l = true → length l = 4.
Proof. destruct l as [|c0 [|c1 [|c2 [|c3 [|c4 l]]]]]; done. Qed.

(** X20. The temporary [.ass] path sits next to the engine's file: for
    an engine path made of a stem and a final [.srt] in any letter case,
    it is the stem followed by [.ass]. *)
Theorem replace_srt_ext_swaps_extension (stem e : string) :
  toLowerCase e = ".srt" →
  replace_srt_ext (stem +:+ e) = stem +:+ ".ass".
Proof.
  intros He%lowered_srt_is_suffix. pose proof (srt_suffix_length _ He) as Hlen.
  unfold replace_srt_ext. rewrite chars_app, length_app, Hlen.
  replace (length (list_ascii_of_string stem) + 4 - 4)
    with (length (list_ascii_of_string stem)) by lia.
  rewrite drop_app_length, He, take_app_length.
  by rewrite string_of_list_ascii_of_string.
Qed.

Lemma replace_srt_ext_swaps_extension_witness :
  replace_srt_ext ("/tmp/legenda-job/audio" +:+ ".SrT") = "/tmp/legenda-job/audio.ass".
Proof.
  apply (replace_srt_ext_swaps_extension "/tmp/legenda-job/audio" ".SrT"). reflexivity.
Defined.

(* ================================================================== *)
(** ** The renderer's helpers *)
(* ================================================================== *)

Lemma last_dot_none (l : list ascii) i acc :
  Posix.dot ∉ l → Posix.last_dot l i acc = acc.
Proof.
  revert i acc. induction l as [|c l IH]; intros i acc Hl; [done|].
  cbn [Posix.last_dot]. apply not_elem_of_cons in Hl as [Hc Hl].
  rewrite bool_decide_eq_false_2 by done. by apply IH.
Qed.

Lemma last_dot_split (l1 l2 : list ascii) i acc :
  Posix.dot ∉ l2 →
  Posix.last_dot (l1 ++ Posix.dot :: l2) i acc = Some (i + length l1).
Proof.
  intros Hl2. revert i acc.
  induction l1 as [|c l1 IH]; intros i acc; cbn [app Posix.last_dot length].
  - rewrite bool_decide_eq_true_2 by done. rewrite last_dot_none by done.
    f_equal. lia.
  - rewrite IH. f_equal. lia.
Qed.

(** X21. Stripping the extension for the rename dialog: a name made of a
    non-empty base, a dot and an extension without dots gives back the
    base; a name without any dot, or whose only dot opens it, is
    returned whole. *)
Theorem baseNameFromFile_strips_extension (base ext : string) :
  Posix.dot ∉ list_ascii_of_string ext →
  (base ≠ "" → Renderer.baseNameFromFile (base +:+ "." +:+ ext) = base)
  ∧ Renderer.baseNameFromFile ("." +:+ ext) = "." +:+ ext
  ∧ Renderer.baseNameFromFile ext = ext.
Proof.
  intros Hext. unfold Renderer.baseNameFromFile. split; [|split].
  - intros Hbase. rewrite chars_app. change (list_ascii_of_string ("." +:+ ext))
      with (Posix.dot :: list_ascii_of_string ext).
    rewrite last_dot_split by done. simpl.
    destruct (list_ascii_of_string base) as [|c l] eqn:Hl.
    { exfalso. apply Hbase. apply chars_inj. by rewrite Hl. }
    cbn [length]. rewrite <- Hl.
    replace (S (length l)) with (length (list_ascii_of_string base)) by (by rewrite Hl).
    rewrite take_app_length. apply string_of_list_ascii_of_string.
  - change (list_ascii_of_string ("." +:+ ext))
      with ([] ++ Posix.dot :: list_ascii_of_string ext).
    by rewrite last_dot_split.
  - by rewrite last_dot_none.
Qed.

Lemma baseNameFromFile_strips_extension_witness :
  Renderer.baseNameFromFile ("talk.final" +:+ "." +:+ "srt") = "talk.final"
  ∧ Renderer.baseNameFromFile ("." +:+ "srt") = ".srt".
Proof.
  assert (Hext : Posix.dot ∉ list_ascii_of_string "srt").
  { intros Hin. repeat (apply elem_of_cons in Hin as [Hin|Hin]; [discriminate Hin|]).
    by apply elem_of_nil in Hin. }
  destruct (baseNameFromFile_strips_extension "talk.final" "srt" Hext) as (Hb & Hd & _).
  split; [apply Hb; discriminate|exact Hd].
Defined.

Example sanitize_examples :
  Renderer.sanitizeBaseName (Renderer.units "  my <final>  cut?  ")
  = Renderer.units "my final cut"
  ∧ Renderer.sanitizeBaseName (Renderer.units " a / b ") = Renderer.units "a b"
  ∧ Renderer.sanitizeBaseName (Renderer.units " ?*: ") = []
  ∧ Renderer.sanitizeBaseName [0xA0; 97; 0x2003; 0x3000; 98; 9; 0xFEFF]%N
    = [97; 32; 98]%N.
Proof. vm_compute. repeat split. Qed.

(* ================================================================== *)
(** ** Listing after a change *)
(* ================================================================== *)

Lemma find_map_with_exists id (g : GeneratedFileDTO → bool) (l : list GeneratedFileDTO) :
  List.find (has_id id) (map (λ x, with_exists x (g x)) l)
  = (λ x, with_exists x (g x)) <$> List.find (has_id id) l.
Proof.
  induction l as [|x l IH]; [done|]. simpl.
  change (has_id id (with_exists x (g x))) with (has_id id x).
  by destruct (has_id id x).
Qed.

Lemma rename_success_facts {P : PathApi} (E : Env) req w w' item :
  GENERATED_RENAME E req w = (Normal item, w') →
  List.find (has_id (rn_id req)) (catalog w') = Some item
  ∧ length (catalog w') = length (catalog w)
  ∧ existsSync (files w') (gf_path item) = true
  ∧ gf_exists item = true.
Proof.
  unfold GENERATED_RENAME. unfold_ops. unfold_m. simpl.
  destruct (List.find (has_id (rn_id req)) (catalog w)) as [found|] eqn:Hfind;
    [|discriminate].
  destruct (existsSync (files w) (gf_path found)); simpl; [|discriminate].
  destruct (bool_decide (sanitizeBaseName E (newBaseName req) = "")); simpl;
    [discriminate|].
  destruct (os_fault E _); simpl; [discriminate|].
  destruct (files w !! gf_path found) as [content|]; simpl; [|discriminate].
  destruct (existsb _ _); simpl; [|discriminate].
  intros Hrun. inversion Hrun; subst; clear Hrun. simpl.
  split; [|split; [apply replace_first_length|split; [|done]]].
  - eapply replace_first_find; [done|]. simpl. by eapply find_has_id.
  - unfold existsSync. apply bool_decide_eq_true_2. rewrite lookup_insert_eq. eauto.
Qed.

(** X26. Listing after a successful rename shows the record under its
    new path, marked as existing, and as many records as before. *)
Theorem rename_then_list {P : PathApi} (E : Env) (req : RenameGeneratedFileRequest)
    (w w' : World) (item : GeneratedFileDTO) :
  GENERATED_RENAME E req w = (Normal item, w') →
  ∃ items,
    GENERATED_LIST w' = (Normal items, w')
    ∧ List.find (has_id (rn_id req)) items = Some item
    ∧ gf_exists item = true
    ∧ length items = length (catalog w).
Proof.
  intros (Hfind & Hlen & Hthere & Hflag)%rename_success_facts.
  eexists. split; [reflexivity|]. split; [|split; [done|]].
  - rewrite find_map_with_exists, Hfind. simpl. rewrite Hthere.
    destruct item. simpl in *. by subst.
  - by rewrite length_map.
Qed.

Lemma rename_then_list_witness :
  ∃ items,
    GENERATED_LIST (snd (GENERATED_RENAME (P:=posix_path) env_ok
                           {| rn_id := "id-2"; newBaseName := "Z" |} world_XY))
    = (Normal items,
       snd (GENERATED_RENAME (P:=posix_path) env_ok
              {| rn_id := "id-2"; newBaseName := "Z" |} world_XY))
    ∧ List.find (has_id "id-2") items
      = Some (renamed (P:=posix_path) record_Y "/out/Z.ass").
Proof.
  destruct (rename_then_list (P:=posix_path) env_ok
              {| rn_id := "id-2"; newBaseName := "Z" |} world_XY
              (snd (GENERATED_RENAME (P:=posix_path) env_ok
                      {| rn_id := "id-2"; newBaseName := "Z" |} world_XY))
              (renamed (P:=posix_path) record_Y "/out/Z.ass") eq_refl)
    as (items & Hlist & Hfind & _).
  exists items. split; [exact Hlist|exact Hfind].
Defined.

Lemma JOB_START_success_facts {P : PathApi} (E : Env) req w w' resp :
  JOB_START E req w = (Normal resp, w') →
  catalog w' = catalog w ++ [created_record E req (S (rng w))]
  ∧ existsSync (files w') (outputPath req) = true.
Proof.
  intros Hrun. destruct (JOB_START_validated _ _ _ _ _ Hrun) as [Haudio Hout].
  destruct (job_body E req (job_id_of E w) (next_runner w) (after_prologue E w))
    as [c wb] eqn:Hbody.
  rewrite (JOB_START_run _ _ _ _ _ Haudio Hout Hbody) in Hrun.
  destruct c as [resp0|e]; [|discriminate]. inversion Hrun; subst; clear Hrun.
  apply job_body_normal in Hbody
    as (res & fs1 & fs2 & content & srt_text & pv & _ & _ & _ & Hfiles & _ & _ & Hcat
        & _).
  simpl in *. split; [exact Hcat|].
  rewrite Hfiles. unfold existsSync. apply bool_decide_eq_true_2.
  rewrite lookup_insert_eq. eauto.
Qed.

(** X27. Listing after a successful job shows the new record last,
    marked as existing, after the records that were there. *)
Theorem start_then_list {P : PathApi} (E : Env) (req : StartJobRequest)
    (w w' : World) (resp : StartJobResponse) :
  JOB_START E req w = (Normal resp, w') →
  ∃ items,
    GENERATED_LIST w' = (Normal items, w')
    ∧ last items = Some (created_record E req (S (rng w)))
    ∧ length items = S (length (catalog w)).
Proof.
  intros [Hcat Hthere]%JOB_START_success_facts.
  eexists. split; [reflexivity|]. rewrite Hcat. split.
  - rewrite map_app. simpl. rewrite last_snoc. f_equal.
    unfold with_exists, created_record in *. simpl in *. by rewrite Hthere.
  - rewrite length_map, length_app. simpl. lia.
Qed.

Lemma start_then_list_witness :
  ∃ items,
    fst (GENERATED_LIST (snd (JOB_START (P:=posix_path) env_ok req_ass world_XY)))
    = Normal items
    ∧ last items = Some (created_record (P:=posix_path) env_ok req_ass 1)
    ∧ length items = 3.
Proof.
  destruct (start_then_list (P:=posix_path) env_ok req_ass world_XY
              (snd (JOB_START (P:=posix_path) env_ok req_ass world_XY))
              {| sj_jobId := "uuid-0" |})
    as (items & Hlist & Hlast & Hlen).
  - vm_compute. reflexivity.
  - exists items. split; [by rewrite Hlist|]. split; [exact Hlast|exact Hlen].
Defined.

(* ------------------------------------------------------------------ *)
(** *** Time stamps of the preview *)

Lemma padStart2_length (r : nat) :
  r < 60 → String.length (Renderer.padStart2 (pretty r)) = 2.
Proof.
  intros Hr.
  assert (Hall : forallb (λ k, String.length (Renderer.padStart2 (pretty k)) =? 2)
                   (seq 0 60) = true) by (vm_compute; reflexivity).
  rewrite forallb_forall in Hall. apply Nat.eqb_eq, Hall, in_seq. lia.
Qed.

Lemma padStart2_inj (r1 r2 : nat) :
  r1 < 60 → r2 < 60 →
  Renderer.padStart2 (pretty r1) = Renderer.padStart2 (pretty r2) → r1 = r2.
Proof.
  intros H1 H2 Heq.
  assert (Hall : forallb (λ a, forallb (λ b,
                     implb (String.eqb (Renderer.padStart2 (pretty a))
                              (Renderer.padStart2 (pretty b))) (a =? b))
                     (seq 0 60)) (seq 0 60) = true) by (vm_compute; reflexivity).
  rewrite forallb_forall in Hall.
  specialize (Hall r1 ltac:(apply in_seq; lia)).
  rewrite forallb_forall in Hall.
  specialize (Hall r2 ltac:(apply in_seq; lia)).
  rewrite Heq, String.eqb_refl in Hall. simpl in Hall. by apply Nat.eqb_eq.
Qed.

Lemma chars_length (s : string) : length (list_ascii_of_string s) = String.length s.
Proof. induction s as [|c s IH]; simpl; [done|]. by rewrite IH. Qed.

Lemma pretty_N_as_nat (r : N) : pretty r = pretty (N.to_nat r).
Proof.
  change (pretty (N.to_nat r)) with (pretty (N.of_nat (N.to_nat r))).
  by rewrite N2Nat.id.
Qed.

Lemma remainder_below_60 (s : N) : N.to_nat (s mod 60) < 60.
Proof. pose proof (N.mod_lt s 60 ltac:(done)). lia. Qed.

(** X22. A time stamp shows minutes, a colon and two digits of seconds,
    and tells whole seconds apart and nothing finer: two whole
    millisecond values below 2^53 are displayed alike exactly when they
    fall in the same second. *)
Theorem formatMs_same_second (a b : Renderer.SafeMs) :
  Renderer.formatMs a = Renderer.formatMs b
  ↔ (Renderer.ms_value a / 1000 = Renderer.ms_value b / 1000)%N.
Proof.
  unfold Renderer.formatMs.
  set (sa := (Renderer.ms_value a / 1000)%N). set (sb := (Renderer.ms_value b / 1000)%N).
  split; [|by intros ->].
  rewrite (pretty_N_as_nat (sa mod 60)), (pretty_N_as_nat (sb mod 60)).
  intros Heq. apply (f_equal list_ascii_of_string) in Heq. rewrite !chars_app in Heq.
  apply app_inj_2 in Heq as [Hm Hr].
  2:{ rewrite !length_app, !chars_length, !padStart2_length; [done|..];
        apply remainder_below_60. }
  apply chars_inj in Hm. apply (inj pretty) in Hm.
  apply app_inv_head, chars_inj, padStart2_inj in Hr; [|apply remainder_below_60..].
  apply N2Nat.inj in Hr.
  pose proof (N.div_mod sa 60 ltac:(done)) as Ha.
  pose proof (N.div_mod sb 60 ltac:(done)) as Hb.
  rewrite Hm, Hr in Ha. rewrite Ha. by symmetry.
Qed.

Example formatMs_examples :
  Renderer.formatMs (Renderer.safe_ms 0 eq_refl) = "0:00"
  ∧ Renderer.formatMs (Renderer.safe_ms 1500 eq_refl) = "0:01"
  ∧ Renderer.formatMs (Renderer.safe_ms 3200 eq_refl) = "0:03"
  ∧ Renderer.formatMs (Renderer.safe_ms 59999 eq_refl) = "0:59"
  ∧ Renderer.formatMs (Renderer.safe_ms 60000 eq_refl) = "1:00"
  ∧ Renderer.formatMs (Renderer.safe_ms 3723000 eq_refl) = "62:03"
  ∧ Renderer.formatMs (Renderer.safe_ms (2 ^ 53 - 1) eq_refl) = "150119987579:00".
Proof. vm_compute. repeat split. Qed.

(* ------------------------------------------------------------------ *)
(** *** The name sanitizer *)

Section DropWhile.

Context {A : Type} (f : A → bool).

Lemma drop_while_split (l : list A) :
  ∃ k, l = k ++ Posix.drop_while f l ∧ forallb f k = true.
Proof.
  induction l as [|x l (k & Hk & Hall)]; [by exists []|]. simpl.
  destruct (f x) eqn:Hx.
  - exists (x :: k). simpl. rewrite Hx, Hall. split; [by f_equal|done].
  - by exists [].
Qed.

Lemma drop_while_head (l : list A) :
  match Posix.drop_while f l with x :: _ => f x = false | [] => True end.
Proof.
  induction l as [|x l IH]; [done|]. simpl. destruct (f x) eqn:Hx; [done|].
  exact Hx.
Qed.

Lemma drop_while_id (l : list A) :
  match l with x :: _ => f x = false | [] => True end → Posix.drop_while f l = l.
Proof. destruct l as [|x l]; [done|]. simpl. by intros ->. Qed.

Lemma drop_while_all (l : list A) : forallb f l = true → Posix.drop_while f l = [].
Proof.
  induction l as [|x l IH]; [done|]. simpl. intros [-> Hl]%andb_true_iff. by apply IH.
Qed.

End DropWhile.

Lemma forallb_rev {A} (f : A → bool) (l : list A) : forallb f (rev l) = forallb f l.
Proof.
  induction l as [|x l IH]; [done|]. simpl. rewrite forallb_app, IH. simpl.
  rewrite andb_true_r. apply andb_comm.
Qed.

Lemma starts_with_space_spec (l : Renderer.CodeUnits) :
  Renderer.starts_with_space l = false
  ↔ match l with c :: _ => Renderer.is_space c = false | [] => True end.
Proof. by destruct l. Qed.

Lemma trim_split (l : Renderer.CodeUnits) :
  ∃ k1 k2, l = k1 ++ Renderer.trim l ++ k2
           ∧ forallb Renderer.is_space k1 = true
           ∧ forallb Renderer.is_space k2 = true.
Proof.
  unfold Renderer.trim.
  destruct (drop_while_split Renderer.is_space l) as (k1 & Hl & Hk1).
  destruct (drop_while_split Renderer.is_space
              (rev (Posix.drop_while Renderer.is_space l))) as (k2 & Hd & Hk2).
  exists k1, (rev k2). split; [|split; [done|by rewrite forallb_rev]].
  rewrite <- rev_app_distr, <- Hd, rev_involutive. exact Hl.
Qed.

Lemma trim_no_edge_space (l : Renderer.CodeUnits) :
  Renderer.starts_with_space (Renderer.trim l) = false
  ∧ Renderer.starts_with_space (rev (Renderer.trim l)) = false.
Proof.
  split.
  - pose proof (drop_while_head Renderer.is_space l) as Hhead.
    destruct (drop_while_split Renderer.is_space
                (rev (Posix.drop_while Renderer.is_space l))) as (k2 & Hd & _).
    apply (f_equal (@rev N)) in Hd. rewrite rev_involutive, rev_app_distr in Hd.
    fold (Renderer.trim l) in Hd. rewrite Hd in Hhead.
    destruct (Renderer.trim l) as [|c t]; [done|]. exact Hhead.
  - unfold Renderer.trim. rewrite rev_involutive. apply starts_with_space_spec.
    apply drop_while_head.
Qed.

Lemma trim_id (l : Renderer.CodeUnits) :
  Renderer.starts_with_space l = false →
  Renderer.starts_with_space (rev l) = false →
  Renderer.trim l = l.
Proof.
  intros Hs He. unfold Renderer.trim.
  rewrite (drop_while_id _ l) by (by apply starts_with_space_spec).
  rewrite (drop_while_id _ (rev l)) by (by apply starts_with_space_spec).
  apply rev_involutive.
Qed.

Lemma trim_all_space (l : Renderer.CodeUnits) :
  forallb Renderer.is_space l = true → Renderer.trim l = [].
Proof. intros Hl. unfold Renderer.trim. by rewrite (drop_while_all _ l). Qed.

Lemma trim_forallb (f : N → bool) (l : Renderer.CodeUnits) :
  forallb f l = true → forallb f (Renderer.trim l) = true.
Proof.
  destruct (trim_split l) as (k1 & k2 & Hl & _). intros Hall. rewrite Hl in Hall.
  rewrite !forallb_app in Hall.
  by apply andb_true_iff in Hall as [_ [Ht _]%andb_true_iff].
Qed.

Lemma collapse_forallb (f : N → bool) b (l : Renderer.CodeUnits) :
  f 32%N = true → forallb f l = true → forallb f (Renderer.collapse_spaces b l) = true.
Proof.
  intros H32. revert b. induction l as [|c l IH]; intros b; [done|]. simpl.
  intros [Hc Hl]%andb_true_iff.
  destruct (Renderer.is_space c), b; simpl; rewrite ?H32, ?Hc; simpl; auto.
Qed.

Lemma collapse_spaces_are_32 b (l : Renderer.CodeUnits) :
  forallb (λ c, negb (Renderer.is_space c) || (c =? 32)%N)
    (Renderer.collapse_spaces b l) = true.
Proof.
  revert b. induction l as [|c l IH]; intros b; [done|]. simpl.
  destruct (Renderer.is_space c) eqn:Hc, b; simpl; rewrite ?Hc; simpl; auto.
Qed.

Lemma collapse_no_double b (l : Renderer.CodeUnits) :
  Renderer.no_double_space (Renderer.collapse_spaces b l) = true
  ∧ (b = true → Renderer.starts_with_space (Renderer.collapse_spaces b l) = false).
Proof.
  revert b. induction l as [|c l IH]; intros b; [done|]. simpl.
  destruct (Renderer.is_space c) eqn:Hc.
  - destruct b.
    + apply IH.
    + destruct (IH true) as [Hnd Hst]. simpl. rewrite Hnd, Hst by done.
      split; [done|]. done.
  - destruct (IH false) as [Hnd _]. simpl. rewrite Hc, Hnd. split; [done|]. done.
Qed.

Lemma collapse_id b (l : Renderer.CodeUnits) :
  forallb (λ c, negb (Renderer.is_space c) || (c =? 32)%N) l = true →
  Renderer.no_double_space l = true →
  (b = true → Renderer.starts_with_space l = false) →
  Renderer.collapse_spaces b l = l.
Proof.
  revert b. induction l as [|c l IH]; intros b Hall Hnd Hb; [done|]. simpl in *.
  apply andb_true_iff in Hall as [Hc Hall]. apply andb_true_iff in Hnd as [Hcd Hnd].
  destruct (Renderer.is_space c) eqn:Hsp; simpl in *.
  - destruct b; [by specialize (Hb eq_refl)|].
    apply N.eqb_eq in Hc as ->. f_equal. apply IH; [done|done|].
    intros _. by apply negb_true_iff in Hcd.
  - f_equal. by apply IH.
Qed.

Lemma collapse_all_space_inv b (l : Renderer.CodeUnits) :
  forallb Renderer.is_space (Renderer.collapse_spaces b l) = true →
  forallb Renderer.is_space l = true.
Proof.
  revert b. induction l as [|c l IH]; intros b; [done|]. simpl.
  destruct (Renderer.is_space c) eqn:Hc; simpl.
  - destruct b; simpl; apply (IH true).
  - rewrite Hc. done.
Qed.

Lemma no_double_space_app (a b : Renderer.CodeUnits) :
  Renderer.no_double_space (a ++ b) = true →
  Renderer.no_double_space a = true ∧ Renderer.no_double_space b = true.
Proof.
  induction a as [|c a IH]; [done|]. simpl.
  intros [Hc Hrest]%andb_true_iff. destruct (IH Hrest) as [Ha Hb].
  split; [|done]. rewrite Ha, andb_true_r.
  destruct a as [|d a]; simpl in *; [by rewrite andb_false_r|done].
Qed.

Lemma filter_forallb_neg (f : N → bool) (l : Renderer.CodeUnits) :
  forallb (λ c, negb (f c)) (List.filter (λ c, negb (f c)) l) = true.
Proof.
  induction l as [|c l IH]; [done|]. simpl.
  destruct (f c) eqn:Hc; simpl; [done|]. by rewrite Hc.
Qed.

Lemma filter_keeps_all (f : N → bool) (l : Renderer.CodeUnits) :
  forallb f l = true → List.filter f l = l.
Proof.
  induction l as [|c l IH]; [done|]. simpl. intros [Hc Hl]%andb_true_iff.
  rewrite Hc. f_equal. by apply IH.
Qed.

Lemma forallb_and (f g : N → bool) (l : Renderer.CodeUnits) :
  forallb (λ c, f c && g c) l = forallb f l && forallb g l.
Proof.
  induction l as [|c l IH]; [done|]. simpl. rewrite IH.
  destruct (f c), (g c), (forallb f l), (forallb g l); done.
Qed.

Lemma sanitize_tidy (input : Renderer.CodeUnits) :
  Renderer.tidy (Renderer.sanitizeBaseName input) = true.
Proof.
  unfold Renderer.tidy, Renderer.sanitizeBaseName.
  set (cleaned := List.filter _ (Renderer.trim input)).
  destruct (trim_no_edge_space (Renderer.collapse_spaces false cleaned)) as [Hs He].
  rewrite Hs, He. simpl. rewrite !andb_true_r. apply andb_true_iff. split.
  - apply trim_forallb. rewrite forallb_and. apply andb_true_iff. split.
    + apply collapse_forallb; [done|]. apply filter_forallb_neg.
    + apply collapse_spaces_are_32.
  - destruct (trim_split (Renderer.collapse_spaces false cleaned))
      as (k1 & k2 & Hsplit & _).
    destruct (collapse_no_double false cleaned) as [Hnd _].
    rewrite Hsplit in Hnd.
    apply no_double_space_app in Hnd as [_ Hnd].
    by apply no_double_space_app in Hnd as [Hnd _].
Qed.

Lemma tidy_fixed (l : Renderer.CodeUnits) :
  Renderer.tidy l = true → Renderer.sanitizeBaseName l = l.
Proof.
  unfold Renderer.tidy. intros Ht.
  apply andb_true_iff in Ht as [Ht He%negb_true_iff].
  apply andb_true_iff in Ht as [Ht Hs%negb_true_iff].
  apply andb_true_iff in Ht as [Hall Hnd].
  rewrite forallb_and in Hall. apply andb_true_iff in Hall as [Hforb Hsp].
  unfold Renderer.sanitizeBaseName.
  rewrite (trim_id l) by done. rewrite filter_keeps_all by done.
  rewrite collapse_id by done. by apply trim_id.
Qed.

(** X23. What the sanitizer returns is clean: it holds none of the
    characters the first pattern removes (the nine punctuation characters
    and the code units U+0000 to U+001F), its only white space is the
    plain space, never twice in a row and never at either end.  In
    particular it holds no path separator. *)
Theorem sanitized_name_is_clean (input : Renderer.CodeUnits) :
  let name := Renderer.sanitizeBaseName input in
  Forall (λ c, Renderer.is_forbidden c = false) name
  ∧ Forall (λ c, Renderer.is_space c = true → c = 32%N) name
  ∧ Renderer.no_double_space name = true
  ∧ Renderer.starts_with_space name = false
  ∧ Renderer.starts_with_space (rev name) = false
  ∧ Forall (λ c, c ≠ 47%N ∧ c ≠ 92%N) name.
Proof.
  intros name. pose proof (sanitize_tidy input) as Ht. fold name in Ht.
  unfold Renderer.tidy in Ht.
  apply andb_true_iff in Ht as [Ht He%negb_true_iff].
  apply andb_true_iff in Ht as [Ht Hs%negb_true_iff].
  apply andb_true_iff in Ht as [Hall Hnd].
  rewrite forallb_and in Hall. apply andb_true_iff in Hall as [Hforb Hsp].
  assert (Hclean : Forall (λ c, Renderer.is_forbidden c = false) name).
  { apply Forall_forall. intros c Hc. rewrite forallb_forall in Hforb.
    apply negb_true_iff, Hforb. by apply list_elem_of_In. }
  split; [exact Hclean|]. split.
  { apply Forall_forall. intros c Hc Hspace. rewrite forallb_forall in Hsp.
    apply list_elem_of_In in Hc. specialize (Hsp c Hc). rewrite Hspace in Hsp.
    by apply N.eqb_eq in Hsp. }
  split; [done|]. split; [done|]. split; [done|].
  eapply Forall_impl; [exact Hclean|]. intros c Hc.
  split; intros ->; discriminate Hc.
Qed.

(** X24. Sanitizing is idempotent: a sanitized name goes through the
    sanitizer unchanged. *)
Theorem sanitize_idempotent (input : Renderer.CodeUnits) :
  Renderer.sanitizeBaseName (Renderer.sanitizeBaseName input)
  = Renderer.sanitizeBaseName input.
Proof. apply tidy_fixed, sanitize_tidy. Qed.

(** X25. The sanitizer returns the empty name, the one the rename dialog
    refuses, exactly when the input has nothing but white space and
    forbidden characters. *)
Theorem sanitize_empty_iff (input : Renderer.CodeUnits) :
  Renderer.sanitizeBaseName input = []
  ↔ forallb (λ c, Renderer.is_space c || Renderer.is_forbidden c) input = true.
Proof.
  unfold Renderer.sanitizeBaseName.
  destruct (trim_split input) as (k1 & k2 & Hin & Hk1 & Hk2).
  set (t := Renderer.trim input) in *.
  assert (Hweak : ∀ k, forallb Renderer.is_space k = true →
                       forallb (λ c, Renderer.is_space c || Renderer.is_forbidden c) k
                       = true).
  { intros k Hk. rewrite forallb_forall in *. intros c Hc. by rewrite (Hk c Hc). }
  assert (Hfilter : forallb Renderer.is_space
                      (List.filter (λ c, negb (Renderer.is_forbidden c)) t) = true
                    ↔ forallb (λ c, Renderer.is_space c || Renderer.is_forbidden c) t
                      = true).
  { clear. induction t as [|c t IH]; [done|]. simpl.
    destruct (Renderer.is_forbidden c); simpl.
    - rewrite orb_true_r. simpl. exact IH.
    - rewrite orb_false_r. rewrite !andb_true_iff, IH. done. }
  split.
  - intros Hnil.
    destruct (trim_split (Renderer.collapse_spaces false
                            (List.filter (λ c, negb (Renderer.is_forbidden c)) t)))
      as (j1 & j2 & Hc & Hj1 & Hj2).
    rewrite Hnil in Hc. simpl in Hc.
    assert (Hall : forallb Renderer.is_space
                     (Renderer.collapse_spaces false
                        (List.filter (λ c, negb (Renderer.is_forbidden c)) t)) = true).
    { rewrite Hc, forallb_app, Hj1, Hj2. done. }
    apply collapse_all_space_inv, Hfilter in Hall.
    rewrite Hin, !forallb_app, Hall, !Hweak by done. done.
  - intros Hall. rewrite Hin, !forallb_app in Hall.
    apply andb_true_iff in Hall as [_ [Ht _]%andb_true_iff].
    apply Hfilter in Ht. apply trim_all_space. by apply collapse_forallb.
Qed.
